(** * Pose-estimation post-processing: letterbox, selection, unmapping, rendering

    A shallow embedding of the numeric core of [src/index.ts] and of its
    sibling demo variants ([src/02-output-processing.ts], the still-image
    letterbox demo and the live-video demo), with the frame pipelines that
    chain them.

    JavaScript numbers and tensor entries are modelled as exact rationals
    ([Q], compared with [Qeq], [Qlt], [Qle]); element sizes, pixel
    dimensions and array indices are integers.  Rounding, NaN and the
    infinities of IEEE arithmetic are outside this model, and so is the
    bound an engine puts on the number of arguments of a call
    ([Math.max(...scoresArray)] takes one argument per anchor). *)

From Stdlib Require Import String ZArith QArith Qround Qabs Qminmax Bool List Lia Lqa.
Import ListNotations.

Set Warnings "-abstract-large-number".

Local Open Scope Q_scope.

(** ** Outcomes of a call *)

(** What TensorFlow.js raises when a [slice] request is malformed. *)
Inductive TfError : Type :=
| NegativeBegin   (* "slice() does not support negative begin indexing." *)
| NegativeSize    (* "Negative size values should be exactly -1 ..."     *)
| SliceOverflow   (* "begin[i] + size[i] would overflow input.shape[i]"  *)
| RankMismatch.   (* begin/size of a length other than the tensor rank   *)

(** A call either returns a value, throws, or returns normally with a
    component that is [undefined] (an array read past the end), which has
    no rational value. *)
Inductive Outcome (A : Type) : Type :=
| Returns (a : A)
| Throws (e : TfError)
| Undefined.

Arguments Returns {A} a.
Arguments Throws {A} e.
Arguments Undefined {A}.

Definition bind {A B : Type} (c : Outcome A) (k : A -> Outcome B) : Outcome B :=
  match c with
  | Returns a => k a
  | Throws e => Throws e
  | Undefined => Undefined
  end.

Declare Scope outcome_scope.
Delimit Scope outcome_scope with outcome.
Notation "x <- c ;; k" := (bind c (fun x => k))
  (at level 61, c at next level, right associativity) : outcome_scope.

(** ** Comparisons on numbers *)

Definition Qltb (x y : Q) : bool :=
  match x ?= y with Lt => true | _ => false end.

(** ** Tensors (the part of TensorFlow.js the program uses) *)

Module Tf.

(** A tensor is a shape together with its entries, addressed by a
    multi-index (one coordinate per axis). *)
Record Tensor : Type := mkTensor {
  shape : list nat;
  elem : list nat -> Q
}.

(** Row-major position of a multi-index in the flat buffer. *)
Fixpoint flatIndex (dims : list nat) (idx : list nat) (acc : nat) : nat :=
  match dims, idx with
  | d :: dims', i :: idx' => flatIndex dims' idx' (acc * d + i)%nat
  | _, _ => acc
  end.

(** [tensor(values, shape)]: a tensor from its flat row-major values. *)
Definition tensor (values : list Q) (dims : list nat) : Tensor :=
  {| shape := dims; elem := fun idx => nth (flatIndex dims idx 0) values 0 |}.

(** All multi-indices of a shape, in row-major order. *)
Fixpoint indices (dims : list nat) : list (list nat) :=
  match dims with
  | [] => [[]]
  | d :: rest => flat_map (fun i => map (cons i) (indices rest)) (seq 0 d)
  end.

(** [t.dataSync()] / [await t.data()]: the entries as a flat array. *)
Definition dataSync (t : Tensor) : list Q := map (elem t) (indices (shape t)).

(** Position of axis [d] inside a permutation. *)
Fixpoint position (d : nat) (perm : list nat) : nat :=
  match perm with
  | [] => 0
  | p :: rest => if Nat.eqb p d then 0%nat else S (position d rest)
  end.

(** [t.transpose(perm)]: output axis [i] is input axis [perm[i]]; the
    library rejects a permutation whose length is not the rank. *)
Definition transpose (t : Tensor) (perm : list nat) : Outcome Tensor :=
  if Nat.eqb (length perm) (length (shape t))
  then Returns
         {| shape := map (fun p => nth p (shape t) 0%nat) perm;
            elem := fun idx =>
              elem t (map (fun d => nth (position d perm) idx 0%nat)
                          (seq 0 (length perm))) |}
  else Throws RankMismatch.

(** Resolution of a [size] entry: [-1] means "up to the end of the axis". *)
Definition sliceSize (dim : nat) (b s : Z) : Z :=
  if (0 <=? s)%Z then s else (Z.of_nat dim - b)%Z.

Fixpoint sliceSizes (dims : list nat) (begin size : list Z) : list Z :=
  match dims, begin, size with
  | d :: dims', b :: begin', s :: size' =>
      sliceSize d b s :: sliceSizes dims' begin' size'
  | _, _, _ => []
  end.

Fixpoint sliceFits (dims : list nat) (begin size : list Z) : bool :=
  match dims, begin, size with
  | d :: dims', b :: begin', s :: size' =>
      (b + s <=? Z.of_nat d)%Z && sliceFits dims' begin' size'
  | _, _, _ => true
  end.

Fixpoint offsetIndex (begin : list Z) (idx : list nat) : list nat :=
  match begin, idx with
  | b :: begin', i :: idx' => (Z.to_nat b + i)%nat :: offsetIndex begin' idx'
  | _, _ => []
  end.

(** [slice(t, begin, size)] with the argument checks of the library: a
    short [begin] is completed with 0 and a short [size] with -1; [-1] is
    refused as a begin, a size below [-1] is refused, and the window has
    to fit. *)
Definition slice (t : Tensor) (begin size : list Z) : Outcome Tensor :=
  let rank := length (shape t) in
  let begin := begin ++ repeat 0%Z (rank - length begin) in
  let size := size ++ repeat (-1)%Z (rank - length size) in
  if existsb (fun b => (b =? -1)%Z) begin then Throws NegativeBegin
  else if existsb (fun s => (s <? -1)%Z) size then Throws NegativeSize
  else if negb (Nat.eqb (length begin) rank && Nat.eqb (length size) rank)
  then Throws RankMismatch
  else
    let sizes := sliceSizes (shape t) begin size in
    if sliceFits (shape t) begin sizes
    then Returns {| shape := map Z.to_nat sizes;
                    elem := fun idx => elem t (offsetIndex begin idx) |}
    else Throws SliceOverflow.

(** [div(t, c)] with a scalar divisor. *)
Definition div (t : Tensor) (c : Q) : Tensor :=
  {| shape := shape t; elem := fun idx => elem t idx / c |}.

(** [sub(a, b)] and [add(a, b)] on tensors of one shape. *)
Definition sub (a b : Tensor) : Tensor :=
  {| shape := shape a; elem := fun idx => elem a idx - elem b idx |}.

Definition add (a b : Tensor) : Tensor :=
  {| shape := shape a; elem := fun idx => elem a idx + elem b idx |}.

(** Replace coordinate [axis] of a multi-index. *)
Fixpoint setAxis (axis : nat) (v : nat) (idx : list nat) : list nat :=
  match idx, axis with
  | [], _ => []
  | _ :: idx', O => v :: idx'
  | i :: idx', S axis' => i :: setAxis axis' v idx'
  end.

Fixpoint concatElem (ts : list Tensor) (axis : nat) (idx : list nat) : Q :=
  match ts with
  | [] => 0
  | t :: rest =>
      let d := nth axis (shape t) 0%nat in
      let k := nth axis idx 0%nat in
      if (k <? d)%nat then elem t idx
      else concatElem rest axis (setAxis axis (k - d)%nat idx)
  end.

(** [concat(ts, axis)]: the tensors laid one after another along [axis]. *)
Definition concat (ts : list Tensor) (axis : nat) : Tensor :=
  {| shape :=
       match ts with
       | [] => []
       | t :: _ =>
           setAxis axis
             (fold_right (fun u n => (nth axis (shape u) 0 + n)%nat) 0%nat ts)
             (shape t)
       end;
     elem := concatElem ts axis |}.

(** Re-insert the coordinates (all 0) of the axes that [squeeze] dropped. *)
Fixpoint unsqueezeIndex (dims : list nat) (idx : list nat) : list nat :=
  match dims with
  | [] => []
  | d :: rest =>
      if Nat.eqb d 1 then 0%nat :: unsqueezeIndex rest idx
      else match idx with
           | i :: idx' => i :: unsqueezeIndex rest idx'
           | [] => 0%nat :: unsqueezeIndex rest []
           end
  end.

(** [squeeze(t)]: drop every axis of size 1. *)
Definition squeeze (t : Tensor) : Tensor :=
  {| shape := filter (fun d => negb (Nat.eqb d 1)) (shape t);
     elem := fun idx => elem t (unsqueezeIndex (shape t) idx) |}.

(** [t.expandDims(0)]: a leading axis of size 1. *)
Definition expandDims0 (t : Tensor) : Tensor :=
  {| shape := 1%nat :: shape t; elem := fun idx => elem t (tl idx) |}.

(** [t.pad(paddings)]: zeros before and after along every axis. *)
Fixpoint padShape (dims : list nat) (paddings : list (nat * nat)) : list nat :=
  match dims, paddings with
  | d :: dims', (before, after) :: paddings' =>
      (before + d + after)%nat :: padShape dims' paddings'
  | _, _ => []
  end.

Fixpoint padIndex (dims : list nat) (paddings : list (nat * nat))
         (idx : list nat) : option (list nat) :=
  match dims, paddings, idx with
  | d :: dims', (before, _) :: paddings', i :: idx' =>
      if ((before <=? i) && (i <? before + d))%nat
      then option_map (cons (i - before)%nat) (padIndex dims' paddings' idx')
      else None
  | [], _, _ => Some []
  | _, _, _ => None
  end.

Definition pad (t : Tensor) (paddings : list (nat * nat)) : Tensor :=
  {| shape := padShape (shape t) paddings;
     elem := fun idx =>
       match padIndex (shape t) paddings idx with
       | Some src => elem t src
       | None => 0
       end |}.

(** [t.resizeBilinear([newHeight, newWidth])] on a [height; width; depth]
    tensor, with the library defaults (corners not aligned, no half-pixel
    centres): output pixel [(r, c)] samples the input at
    [(r * height / newHeight, c * width / newWidth)] and interpolates
    between the four neighbouring pixels. *)
Definition resizeBilinear (t : Tensor) (size : nat * nat) : Tensor :=
  let '(newHeight, newWidth) := size in
  let oldHeight := nth 0 (shape t) 0%nat in
  let oldWidth := nth 1 (shape t) 0%nat in
  let rowRatio := inject_Z (Z.of_nat oldHeight) / inject_Z (Z.of_nat newHeight) in
  let colRatio := inject_Z (Z.of_nat oldWidth) / inject_Z (Z.of_nat newWidth) in
  {| shape := [newHeight; newWidth; nth 2 (shape t) 0%nat];
     elem := fun idx =>
       let r := nth 0 idx 0%nat in
       let c := nth 1 idx 0%nat in
       let d := nth 2 idx 0%nat in
       let sourceFracRow := rowRatio * inject_Z (Z.of_nat r) in
       let sourceRowFloor := Z.max 0 (Qfloor sourceFracRow) in
       let rowFrac := sourceFracRow - inject_Z sourceRowFloor in
       let sourceRowCeil :=
         Z.min (Z.of_nat oldHeight - 1) (Qceiling sourceFracRow) in
       let sourceFracCol := colRatio * inject_Z (Z.of_nat c) in
       let sourceColFloor := Z.max 0 (Qfloor sourceFracCol) in
       let colFrac := sourceFracCol - inject_Z sourceColFloor in
       let sourceColCeil :=
         Z.min (Z.of_nat oldWidth - 1) (Qceiling sourceFracCol) in
       let pixel (row col : Z) := elem t [Z.to_nat row; Z.to_nat col; d] in
       let topLeft := pixel sourceRowFloor sourceColFloor in
       let bottomLeft := pixel sourceRowCeil sourceColFloor in
       let topRight := pixel sourceRowFloor sourceColCeil in
       let bottomRight := pixel sourceRowCeil sourceColCeil in
       let top := topLeft + (topRight - topLeft) * colFrac in
       let bottom := bottomLeft + (bottomRight - bottomLeft) * colFrac in
       top + (bottom - top) * rowFrac |}.

End Tf.

(** ** Array helpers of the JavaScript runtime *)

Module Js.

(** [Math.max(...arr)]: a left-to-right scan starting from [-Infinity],
    which is represented by [None].  The spread passes one argument per
    entry; an engine refuses a call with too many arguments (a
    [RangeError], met far above the 8400 anchors of the pose network),
    which this definition does not represent. *)
Definition maxStep (highest : option Q) (x : Q) : option Q :=
  match highest with
  | None => Some x
  | Some h => if Qltb h x then Some x else Some h
  end.

Definition mathMax (arr : list Q) : option Q := fold_left maxStep arr None.

(** [arr.indexOf(x)]: the first position holding a number equal to [x],
    or [-1]. *)
Fixpoint indexOfFrom (arr : list Q) (x : Q) (i : Z) : Z :=
  match arr with
  | [] => (-1)%Z
  | y :: rest => if Qeq_bool y x then i else indexOfFrom rest x (i + 1)%Z
  end.

Definition indexOf (arr : list Q) (x : option Q) : Z :=
  match x with
  | Some m => indexOfFrom arr m 0%Z
  | None => (-1)%Z          (* no rational equals -Infinity *)
  end.

(** [arr[i]]: [None] stands for [undefined]. *)
Definition get (arr : list Q) (i : Z) : option Q :=
  if (i <? 0)%Z then None else nth_error arr (Z.to_nat i).

End Js.

(** ** Data model *)

(** Bounding box in corner format: [x1, y1, x2, y2]. *)
Definition BoundingBox : Type := (Q * Q * Q * Q)%type.

(** Keypoint with coordinates and confidence: [x, y, confidence]. *)
Definition Keypoint : Type := (Q * Q * Q)%type.

(** Model prediction: bounding box, confidence score and keypoints. *)
Record Prediction : Type := mkPrediction {
  box : BoundingBox;
  score : Q;
  keypoints : list Keypoint
}.

(** Parameters for transforming coordinates from model space to original
    image space. *)
Record TransformParams : Type := mkTransformParams {
  scale : Q;
  xOffset : Q;
  yOffset : Q;
  originalWidth : Q;
  originalHeight : Q
}.

(** An image or video element: its pixel dimensions and what
    [tfBrowser.fromPixels] reads from it (shape [height; width; 3]). *)
Module Element.
Record t : Type := mk {
  width : Z;
  height : Z;
  fromPixels : Tf.Tensor
}.
End Element.

(** The loaded network: only the shape of its first input is used. *)
Record GraphModel : Type := mkGraphModel {
  inputShape : list Z
}.

(** ** The 2D canvas, as the trace of what is done to it *)

Module Canvas.

Inductive Op : Type :=
| SetWidth (w : Q)
| SetHeight (h : Q)
| ClearRect (x y w h : Q)
| DrawImage (source : Element.t) (x y w h : Q)
| SetStrokeStyle (style : string)
| SetLineWidth (w : Q)
| StrokeRect (x y w h : Q)
| SetFillStyle (style : string)
| BeginPath
| Arc (x y radius : Q) (startAngle endAngleOverPi : Q)
| Fill.

(** A canvas is the chronological list of operations applied to it. *)
Definition t : Type := list Op.

(** The operations that put something on the bitmap. *)
Definition draws (op : Op) : bool :=
  match op with
  | DrawImage _ _ _ _ _ | StrokeRect _ _ _ _ | Fill => true
  | _ => false
  end.

End Canvas.

(** Props for rendering predictions on canvas. *)
Module RenderPredictionProps.
Record t : Type := mk {
  canvas : Canvas.t;
  score : Q;
  box : BoundingBox;
  keypoints : list Keypoint;
  source : Element.t;
  width : Q;
  height : Q
}.
End RenderPredictionProps.

(** ** [src/index.ts] *)

Module Index.

Import Tf.
Local Open Scope outcome_scope.

(** Transform a single coordinate from model space back to original image
    space. *)
Definition transformCoordinate (coord scale offset : Q) : Q :=
  coord * scale - offset.

(** Scale prediction coordinates from model space back to original image
    space. *)
Definition scalePrediction (prediction : Prediction)
           (transformParams : TransformParams) : Prediction :=
  let scale := scale transformParams in
  let xOffset := xOffset transformParams in
  let yOffset := yOffset transformParams in
  let '(modelX1, modelY1, modelX2, modelY2) := box prediction in
  let scaledBox : BoundingBox :=
    (transformCoordinate modelX1 scale xOffset,
     transformCoordinate modelY1 scale yOffset,
     transformCoordinate modelX2 scale xOffset,
     transformCoordinate modelY2 scale yOffset) in
  let scaledKeypoints : list Keypoint :=
    map (fun '(x, y, confidence) =>
           (transformCoordinate x scale xOffset,
            transformCoordinate y scale yOffset,
            confidence))
        (keypoints prediction) in
  {| box := scaledBox;
     score := score prediction;
     keypoints := scaledKeypoints |}.

Definition CONFIDENCE_THRESHOLD : Q := 0.5.

(** One turn of the keypoint loop of [renderPrediction]. *)
Definition drawKeypoint (ctx : Canvas.t) (keypoint : Keypoint) : Canvas.t :=
  let '(x, y, confidence) := keypoint in
  if Qltb CONFIDENCE_THRESHOLD confidence
  then ctx ++ [Canvas.BeginPath; Canvas.Arc x y 5 0 2; Canvas.Fill]
  else ctx.

(** Render pose estimation prediction on a canvas; the result is the
    canvas after the call. *)
Definition renderPrediction (props : RenderPredictionProps.t) : Canvas.t :=
  let canvas := RenderPredictionProps.canvas props in
  let width := RenderPredictionProps.width props in
  let height := RenderPredictionProps.height props in
  if Qltb (RenderPredictionProps.score props) CONFIDENCE_THRESHOLD
  then canvas
  else
    let ctx :=
      canvas ++ [Canvas.SetWidth width; Canvas.SetHeight height;
                 Canvas.ClearRect 0 0 width height;
                 Canvas.DrawImage (RenderPredictionProps.source props)
                                  0 0 width height] in
    let '(x1, y1, x2, y2) := RenderPredictionProps.box props in
    let ctx :=
      ctx ++ [Canvas.SetStrokeStyle "lime"; Canvas.SetLineWidth 2;
              Canvas.StrokeRect x1 y1 (x2 - x1) (y2 - y1);
              Canvas.SetFillStyle "red"] in
    fold_left drawKeypoint (RenderPredictionProps.keypoints props) ctx.

(** The loop grouping the flat keypoint data into [x, y, confidence]
    triplets; a last group cut short reads past the end of the array. *)
Fixpoint formatKeypoints (keypointsData : list Q) : Outcome (list Keypoint) :=
  match keypointsData with
  | [] => Returns []
  | x :: y :: confidence :: rest =>
      formattedKeypoints <- formatKeypoints rest ;;
      Returns ((x, y, confidence) :: formattedKeypoints)
  | _ => Undefined
  end.

(** [[...data] as BoundingBox]. *)
Definition asBoundingBox (data : list Q) : Outcome BoundingBox :=
  match data with
  | [a; b; c; d] => Returns (a, b, c, d)
  | _ => Undefined
  end.

Definition defined {A : Type} (v : option A) : Outcome A :=
  match v with
  | Some a => Returns a
  | None => Undefined
  end.

(** Extract the best prediction from the raw model output
    (shape [1, 56, 8400]). *)
Definition getBestPrediction (predictions : Tensor) : Outcome Prediction :=
  reshapedPredictions <- transpose predictions [0; 2; 1]%nat ;;
  centerX <- slice reshapedPredictions [0; 0; 0]%Z [-1; -1; 1]%Z ;;
  centerY <- slice reshapedPredictions [0; 0; 1]%Z [-1; -1; 1]%Z ;;
  width <- slice reshapedPredictions [0; 0; 2]%Z [-1; -1; 1]%Z ;;
  height <- slice reshapedPredictions [0; 0; 3]%Z [-1; -1; 1]%Z ;;
  let halfWidth := div width 2 in
  let halfHeight := div height 2 in
  let x1 := sub centerX halfWidth in
  let y1 := sub centerY halfHeight in
  let x2 := add centerX halfWidth in
  let y2 := add centerY halfHeight in
  confidenceScores <- slice reshapedPredictions [0; 0; 4]%Z [-1; -1; 1]%Z ;;
  allKeypoints <- slice reshapedPredictions [0; 0; 5]%Z [-1; -1; -1]%Z ;;
  let scoresArray := dataSync confidenceScores in
  let bestPredictionIndex := Js.indexOf scoresArray (Js.mathMax scoresArray) in
  let bestConfidence := Js.get scoresArray bestPredictionIndex in
  bestX1 <- slice x1 [0; bestPredictionIndex; 0]%Z [1; 1; 1]%Z ;;
  bestY1 <- slice y1 [0; bestPredictionIndex; 0]%Z [1; 1; 1]%Z ;;
  bestX2 <- slice x2 [0; bestPredictionIndex; 0]%Z [1; 1; 1]%Z ;;
  bestY2 <- slice y2 [0; bestPredictionIndex; 0]%Z [1; 1; 1]%Z ;;
  let bestBoundingBox := squeeze (concat [bestX1; bestY1; bestX2; bestY2] 2) in
  bestKeypoints <- slice allKeypoints [0; bestPredictionIndex; 0]%Z [1; 1; -1]%Z ;;
  let bestKeypointsTensor := squeeze bestKeypoints in
  let keypointsData := dataSync bestKeypointsTensor in
  formattedKeypoints <- formatKeypoints keypointsData ;;
  boxData <- asBoundingBox (dataSync bestBoundingBox) ;;
  bestScore <- defined bestConfidence ;;
  Returns {| box := boxData;
             score := bestScore;
             keypoints := formattedKeypoints |}.

(** The padding computed by [processImageWithLetterboxing] (Step 1). *)
Record LetterboxPadding : Type := mkLetterboxPadding {
  targetSquareSize : Z;
  leftPadding : Z;
  rightPadding : Z;
  topPadding : Z;
  bottomPadding : Z
}.

(** [Math.floor(total / 2)]. *)
Definition floorHalf (total : Z) : Z := Qfloor (inject_Z total / 2).

Definition letterboxPadding (originalWidth originalHeight : Z)
  : LetterboxPadding :=
  (* Find the larger dimension to determine the target square size *)
  let targetSquareSize := Z.max originalWidth originalHeight in
  (* Calculate how much padding is needed on each axis *)
  let totalWidthPadding := (targetSquareSize - originalWidth)%Z in
  let totalHeightPadding := (targetSquareSize - originalHeight)%Z in
  (* Distribute padding equally on both sides (center the image) *)
  let leftPadding := floorHalf totalWidthPadding in
  let rightPadding := (totalWidthPadding - leftPadding)%Z in
  let topPadding := floorHalf totalHeightPadding in
  let bottomPadding := (totalHeightPadding - topPadding)%Z in
  {| targetSquareSize := targetSquareSize;
     leftPadding := leftPadding;
     rightPadding := rightPadding;
     topPadding := topPadding;
     bottomPadding := bottomPadding |}.

(** Step 2 of [processImageWithLetterboxing]: the normalised image with
    the padding added (black bars). *)
Definition letterboxedImageOf (source : Element.t) : Tensor :=
  (* Convert image to tensor and normalize to [0, 1] *)
  let originalImageTensor := div (Element.fromPixels source) 255 in
  let p := letterboxPadding (Element.width source) (Element.height source) in
  pad originalImageTensor
      [(Z.to_nat (topPadding p), Z.to_nat (bottomPadding p));   (* height *)
       (Z.to_nat (leftPadding p), Z.to_nat (rightPadding p));   (* width *)
       (0%nat, 0%nat)].                                         (* channels *)

(** Result of image processing with letterboxing. *)
Record ProcessedImageResult : Type := mkProcessedImageResult {
  processedImage : Tensor;
  transformParams : TransformParams
}.

(** Apply letterboxing to maintain aspect ratio when resizing for model
    input. *)
Definition processImageWithLetterboxing (source : Element.t)
           (model : GraphModel) : ProcessedImageResult :=
  (* Get model's expected input dimensions *)
  let modelInputShape := inputShape model in
  let modelHeight := nth 1 modelInputShape 0%Z in
  let modelWidth := nth 2 modelInputShape 0%Z in
  (* Step 1: Calculate letterboxing parameters *)
  let originalWidth := Element.width source in
  let originalHeight := Element.height source in
  let p := letterboxPadding originalWidth originalHeight in
  (* Step 2: Apply letterboxing by adding padding (creates black bars) *)
  let letterboxedImage := letterboxedImageOf source in
  (* Step 3: Resize the square image to model input size *)
  let resizedImage :=
    resizeBilinear letterboxedImage
                   (Z.to_nat modelHeight, Z.to_nat modelWidth) in
  (* Step 4: Add batch dimension for model input *)
  let batchedImage := expandDims0 resizedImage in
  (* Transformation parameters for mapping predictions back *)
  let scale := inject_Z (targetSquareSize p) / inject_Z modelWidth in
  let xOffset := inject_Z (leftPadding p) in
  let yOffset := inject_Z (topPadding p) in
  {| processedImage := batchedImage;
     transformParams :=
       {| scale := scale;
          xOffset := xOffset;
          yOffset := yOffset;
          originalWidth := inject_Z originalWidth;
          originalHeight := inject_Z originalHeight |} |}.

End Index.

(** ** The forward steps, read on coordinates

    Step 2 of [processImageWithLetterboxing] ([pad]) moves the source pixel
    of column [x] to column [x + leftPadding] of the square image (rows:
    [+ topPadding]); Step 3 ([resizeBilinear]) shows column [u] of the
    square image at column [u / (squareSize / modelWidth)] of the model
    input (rows: [u / (squareSize / modelHeight)]). *)

Module Geometry.

Import Index.

Definition padCoordinate (coord : Q) (before : Z) : Q :=
  coord + inject_Z before.

Definition resizeCoordinate (coord : Q) (inSize outSize : Z) : Q :=
  coord / (inject_Z inSize / inject_Z outSize).

Definition forwardX (source : Element.t) (model : GraphModel) (x : Q) : Q :=
  let p := letterboxPadding (Element.width source) (Element.height source) in
  resizeCoordinate (padCoordinate x (leftPadding p))
                   (targetSquareSize p) (nth 2 (inputShape model) 0%Z).

Definition forwardY (source : Element.t) (model : GraphModel) (y : Q) : Q :=
  let p := letterboxPadding (Element.width source) (Element.height source) in
  resizeCoordinate (padCoordinate y (topPadding p))
                   (targetSquareSize p) (nth 1 (inputShape model) 0%Z).

End Geometry.

(** ** [src/02-output-processing.ts] (the same selector opens
       [03-letterbox-input-processing.ts]) *)

Module OutputProcessing.

Import Tf.
Local Open Scope outcome_scope.

(** This variant returns the box as a plain [number[]]. *)
Record Prediction : Type := mkPrediction {
  box : list Q;
  score : Q;
  keypoints : list Keypoint
}.

Definition getBestPrediction (predictions : Tensor) : Outcome Prediction :=
  transpose <- Tf.transpose predictions [0; 2; 1]%nat ;;
  w <- slice transpose [0; 0; 2]%Z [-1; -1; 1]%Z ;;
  h <- slice transpose [0; 0; 3]%Z [-1; -1; 1]%Z ;;
  cx <- slice transpose [0; 0; 0]%Z [-1; -1; 1]%Z ;;
  let x1 := sub cx (div w 2) in
  cy <- slice transpose [0; 0; 1]%Z [-1; -1; 1]%Z ;;
  let y1 := sub cy (div h 2) in
  let x2 := add x1 w in
  let y2 := add y1 h in
  scores <- slice transpose [0; 0; 4]%Z [-1; -1; 1]%Z ;;
  keypoints <- slice transpose [0; 0; 5]%Z [-1; -1; -1]%Z ;;
  let scoresData := dataSync scores in
  let maxScoreIndex := Js.indexOf scoresData (Js.mathMax scoresData) in
  bestX1 <- slice x1 [0; maxScoreIndex; 0]%Z [1; 1; 1]%Z ;;
  bestY1 <- slice y1 [0; maxScoreIndex; 0]%Z [1; 1; 1]%Z ;;
  bestX2 <- slice x2 [0; maxScoreIndex; 0]%Z [1; 1; 1]%Z ;;
  bestY2 <- slice y2 [0; maxScoreIndex; 0]%Z [1; 1; 1]%Z ;;
  let bestBox := squeeze (concat [bestX1; bestY1; bestX2; bestY2] 2) in
  let bestScore := Js.get scoresData maxScoreIndex in
  bestKeypointsSlice <- slice keypoints [0; maxScoreIndex; 0]%Z [1; 1; -1]%Z ;;
  let bestKeypoints := squeeze bestKeypointsSlice in
  let keypointsData := dataSync bestKeypoints in
  keypointsFormatted <- Index.formatKeypoints keypointsData ;;
  bestScore <- Index.defined bestScore ;;
  Returns {| box := dataSync bestBox;
             score := bestScore;
             keypoints := keypointsFormatted |}.

End OutputProcessing.

(** ** The still-image letterbox demo ([src/unnamed/part_000])

    [transformCoordinate], [scalePrediction], [getBestPrediction] and the
    letterbox computation read as in [src/index.ts]; [renderPrediction]
    sets the fill style inside the keypoint loop. *)

Module LetterboxOutput.

Definition threshold : Q := 0.5.

Definition drawKeypoint (ctx : Canvas.t) (keypoint : Keypoint) : Canvas.t :=
  let '(x, y, confidence) := keypoint in
  if Qltb threshold confidence
  then ctx ++ [Canvas.BeginPath; Canvas.Arc x y 5 0 2;
               Canvas.SetFillStyle "red"; Canvas.Fill]
  else ctx.

Definition renderPrediction (props : RenderPredictionProps.t) : Canvas.t :=
  let canvas := RenderPredictionProps.canvas props in
  let width := RenderPredictionProps.width props in
  let height := RenderPredictionProps.height props in
  if Qltb (RenderPredictionProps.score props) threshold
  then canvas
  else
    let ctx :=
      canvas ++ [Canvas.SetWidth width; Canvas.SetHeight height;
                 Canvas.ClearRect 0 0 width height;
                 Canvas.DrawImage (RenderPredictionProps.source props)
                                  0 0 width height] in
    let '(x1, y1, x2, y2) := RenderPredictionProps.box props in
    let ctx :=
      ctx ++ [Canvas.SetStrokeStyle "lime"; Canvas.SetLineWidth 2;
              Canvas.StrokeRect x1 y1 (x2 - x1) (y2 - y1)] in
    fold_left drawKeypoint (RenderPredictionProps.keypoints props) ctx.

End LetterboxOutput.

(** ** Sample inputs *)

Module Sample.

(** An element of the given size whose pixels are all black. *)
Definition element (width height : Z) : Element.t :=
  {| Element.width := width;
     Element.height := height;
     Element.fromPixels :=
       Tf.tensor [] [Z.to_nat height; Z.to_nat width; 3%nat] |}.

(** The pose network: a 640 x 640 RGB input. *)
Definition model640 : GraphModel := {| inputShape := [1; 640; 640; 3]%Z |}.

(** A network whose input is not square: 320 rows of 640 columns. *)
Definition model640x320 : GraphModel := {| inputShape := [1; 320; 640; 3]%Z |}.

Definition square : Element.t := element 640 640.
Definition wide : Element.t := element 640 360.
Definition tall : Element.t := element 360 640.
Definition oddDifference : Element.t := element 251 100.
Definition landscape400x300 : Element.t := element 400 300.

(** The 56 channel values of one anchor: box [320, 320, 64, 96] in centre
    format, objectness, then 17 keypoints. *)
Definition anchorRow (objectness : Q) : list Q :=
  [320; 320; 64; 96; objectness]
    ++ flat_map (fun k => [inject_Z (Z.of_nat k) * 10; 320; 0.75]) (seq 0 17).

(** A raw output of shape [1, 56, 8400] whose anchor 4242 holds
    [anchorRow 0.9]; every other entry is 0. *)
Definition rawOutput : Tf.Tensor :=
  {| Tf.shape := [1; 56; 8400]%nat;
     Tf.elem := fun idx =>
       match idx with
       | [_; channel; anchor] =>
           if Nat.eqb anchor 4242 then nth channel (anchorRow 0.9) 0 else 0
       | _ => 0
       end |}.

(** A raw output of shape [1, 56, 8400] all of whose anchors hold the box
    [cx, cy, w, h] in centre format; every other channel is 0. *)
Definition uniformOutput (cx cy w h : Q) : Tf.Tensor :=
  {| Tf.shape := [1; 56; 8400]%nat;
     Tf.elem := fun idx =>
       match idx with
       | [_; channel; _] => nth channel [cx; cy; w; h] 0
       | _ => 0
       end |}.


(** A detection whose score is exactly the threshold. *)
Definition atThreshold : RenderPredictionProps.t :=
  {| RenderPredictionProps.canvas := [];
     RenderPredictionProps.score := 0.5;
     RenderPredictionProps.box := (10, 20, 110, 220);
     RenderPredictionProps.keypoints := [(30, 40, 0.5); (50, 60, 0.51)];
     RenderPredictionProps.source := landscape400x300;
     RenderPredictionProps.width := 400;
     RenderPredictionProps.height := 300 |}.

End Sample.

(** ** [src/index.ts]: one frame of the video loop, and the still-image
       pipelines

    [predict] stands for [model.predict].  [Returns c] means that the call
    ran to its end: [c] is the canvas after it and, in [processImage], the
    next frame has been requested.  A [Throws] escapes before the render
    and before [requestAnimationFrame]. *)

Module Pipeline.

Import Tf.
Local Open Scope outcome_scope.

(** [processImage] of [src/index.ts]. *)
Definition processImage (predict : Tensor -> Tensor) (canvas : Canvas.t)
           (source : Element.t) (model : GraphModel) : Outcome Canvas.t :=
  (* Process image with letterboxing to maintain aspect ratio *)
  let result := Index.processImageWithLetterboxing source model in
  let processedImage := Index.processedImage result in
  let transformParams := Index.transformParams result in
  (* Run model inference *)
  let predictions := predict processedImage in
  (* Extract best prediction and transform coordinates back *)
  bestPrediction <- Index.getBestPrediction predictions ;;
  let scaledPrediction := Index.scalePrediction bestPrediction transformParams in
  (* Render results on canvas *)
  Returns
    (Index.renderPrediction
       {| RenderPredictionProps.canvas := canvas;
          RenderPredictionProps.source := source;
          RenderPredictionProps.box := box scaledPrediction;
          RenderPredictionProps.score := score scaledPrediction;
          RenderPredictionProps.keypoints := keypoints scaledPrediction;
          RenderPredictionProps.width := originalWidth transformParams;
          RenderPredictionProps.height := originalHeight transformParams |}).

(** [main] of the still-image letterbox demo ([src/unnamed/part_000]),
    after the model is loaded. *)
Definition main (predict : Tensor -> Tensor) (canvas : Canvas.t)
           (image : Element.t) (model : GraphModel) : Outcome Canvas.t :=
  let result := Index.processImageWithLetterboxing image model in
  let processedImage := Index.processedImage result in
  let transformParams := Index.transformParams result in
  let predictions := predict processedImage in
  bestPrediction <- Index.getBestPrediction predictions ;;
  let scaledPrediction := Index.scalePrediction bestPrediction transformParams in
  Returns
    (LetterboxOutput.renderPrediction
       {| RenderPredictionProps.canvas := canvas;
          RenderPredictionProps.source := image;
          RenderPredictionProps.box := box scaledPrediction;
          RenderPredictionProps.score := score scaledPrediction;
          RenderPredictionProps.keypoints := keypoints scaledPrediction;
          RenderPredictionProps.width := originalWidth transformParams;
          RenderPredictionProps.height := originalHeight transformParams |}).

End Pipeline.

(** ** [renderPosePredictions] of [src/02-output-processing.ts] and of
       [src/03-letterbox-input-processing.ts] *)

Module PoseDemo.

(** One turn of the keypoint loop (the same in both files). *)
Definition drawKeypoint (ctx : Canvas.t) (keypoint : Keypoint) : Canvas.t :=
  let '(x, y, c) := keypoint in
  if Qltb 0.5 c
  then ctx ++ [Canvas.BeginPath; Canvas.Arc x y 5 0 2;
               Canvas.SetFillStyle "red"; Canvas.Fill]
  else ctx.

(** [src/02-output-processing.ts]: the source is always given. *)
Definition renderPosePredictions (ctx : Canvas.t) (keypoints : list Keypoint)
           (width height : Q) (source : Element.t) : Canvas.t :=
  let ctx := ctx ++ [Canvas.ClearRect 0 0 width height;
                     Canvas.DrawImage source 0 0 width height] in
  fold_left drawKeypoint keypoints ctx.

(** [src/03-letterbox-input-processing.ts]: the source is optional. *)
Definition renderPosePredictionsOptional (ctx : Canvas.t)
           (keypoints : list Keypoint) (width height : Q)
           (source : option Element.t) : Canvas.t :=
  let ctx :=
    match source with
    | Some image => ctx ++ [Canvas.ClearRect 0 0 width height;
                            Canvas.DrawImage image 0 0 width height]
    | None => ctx
    end in
  fold_left drawKeypoint keypoints ctx.

End PoseDemo.

(** ** The live-video demo (second part of [src/vite.config.ts]) *)

Module LiveVideo.

Import Tf.
Local Open Scope outcome_scope.

(** Props of [renderPosePredictions]. *)
Record Props : Type := mkProps {
  ctx : Canvas.t;
  keypoints : list Keypoint;
  width : Q;
  height : Q;
  source : Element.t;
  scale : Q;
  dx : Q;
  dy : Q
}.

(** One turn of the keypoint loop: unmap, clamp to the frame, mark. *)
Definition drawKeypoint (props : Props) (ctx : Canvas.t) (keypoint : Keypoint)
  : Canvas.t :=
  let '(x, y, c) := keypoint in
  if Qltb 0.5 c
  then
    let x := x * scale props in
    let y := y * scale props in
    let x := x - dx props in
    let y := y - dy props in
    let x := Qmax 0 (Qmin x (width props)) in
    let y := Qmax 0 (Qmin y (height props)) in
    ctx ++ [Canvas.BeginPath; Canvas.Arc x y 5 0 2;
            Canvas.SetFillStyle "red"; Canvas.Fill]
  else ctx.

Definition renderPosePredictions (props : Props) : Canvas.t :=
  let ctx :=
    ctx props ++ [Canvas.ClearRect 0 0 (width props) (height props);
                  Canvas.DrawImage (source props) 0 0
                                   (width props) (height props)] in
  fold_left (drawKeypoint props) (keypoints props) ctx.

(** The numbers [processFrame] derives from the frame tensor and the model. *)
Record FrameGeometry : Type := mkFrameGeometry {
  inputHeight : Z;
  inputWidth : Z;
  maxDim : Z;
  padWidth : Z;
  padHeight : Z;
  frameDx : Z;
  frameDy : Z;
  frameScale : Q
}.

Definition frameGeometry (input : Tensor) (model : GraphModel) : FrameGeometry :=
  let modelWidth := nth 2 (inputShape model) 0%Z in
  let inputHeight := Z.of_nat (nth 0 (shape input) 0%nat) in
  let inputWidth := Z.of_nat (nth 1 (shape input) 0%nat) in
  let maxDim := Z.max inputWidth inputHeight in
  let padWidth := (maxDim - inputWidth)%Z in
  let padHeight := (maxDim - inputHeight)%Z in
  let dx := Index.floorHalf padWidth in
  let dy := Index.floorHalf padHeight in
  let scale := inject_Z maxDim / inject_Z modelWidth in
  {| inputHeight := inputHeight; inputWidth := inputWidth; maxDim := maxDim;
     padWidth := padWidth; padHeight := padHeight;
     frameDx := dx; frameDy := dy; frameScale := scale |}.

(** The tensor [processFrame] hands to the network. *)
Definition networkInput (video : Element.t) (model : GraphModel) : Tensor :=
  let input := div (Element.fromPixels video) 255 in
  let modelHeight := nth 1 (inputShape model) 0%Z in
  let modelWidth := nth 2 (inputShape model) 0%Z in
  let g := frameGeometry input model in
  let padded :=
    pad input
        [(Z.to_nat (frameDy g), Z.to_nat (padHeight g - frameDy g));
         (Z.to_nat (frameDx g), Z.to_nat (padWidth g - frameDx g));
         (0%nat, 0%nat)] in
  let resized :=
    resizeBilinear padded (Z.to_nat modelWidth, Z.to_nat modelHeight) in
  expandDims0 resized.

(** [processFrame]; its selector is the one of
    [src/02-output-processing.ts]. *)
Definition processFrame (predict : Tensor -> Tensor) (canvas : Canvas.t)
           (video : Element.t) (model : GraphModel) : Outcome Canvas.t :=
  let input := div (Element.fromPixels video) 255 in
  let g := frameGeometry input model in
  let batched := networkInput video model in
  let predictions := predict batched in
  bestPrediction <- OutputProcessing.getBestPrediction predictions ;;
  Returns
    (renderPosePredictions
       {| ctx := canvas;
          keypoints := OutputProcessing.keypoints bestPrediction;
          width := inject_Z (inputWidth g);
          height := inject_Z (inputHeight g);
          source := video;
          scale := frameScale g;
          dx := inject_Z (frameDx g);
          dy := inject_Z (frameDy g) |}).

End LiveVideo.

(** ** More sample inputs *)

Module Scene.

(** A 6 x 4 image whose pixel values tell row, column and channel apart. *)
Definition gradient : Element.t :=
  {| Element.width := 6;
     Element.height := 4;
     Element.fromPixels :=
       {| Tf.shape := [4; 6; 3]%nat;
          Tf.elem := fun idx =>
            match idx with
            | [y; x; d] => inject_Z (Z.of_nat (1 + 40 * y + 5 * x + d))
            | _ => 0
            end |} |}.

(** A small network input, 8 x 8. *)
Definition model8 : GraphModel := {| inputShape := [1; 8; 8; 3]%Z |}.

(** A network that answers [Sample.rawOutput] whatever it is shown. *)
Definition confidentNetwork (input : Tf.Tensor) : Tf.Tensor := Sample.rawOutput.

(** A network that sees nothing: every entry of its answer is 0. *)
Definition blindNetwork (input : Tf.Tensor) : Tf.Tensor :=
  Sample.uniformOutput 0 0 0 0.

(** A network whose answer has only four channels. *)
Definition brokenNetwork (input : Tf.Tensor) : Tf.Tensor :=
  Tf.tensor [] [1; 4; 8400]%nat.

(** [Sample.rawOutput] with other boxes and keypoints at every anchor but
    anchor 4242; the objectness channel is the same. *)
Definition crowdedOutput : Tf.Tensor :=
  {| Tf.shape := [1; 56; 8400]%nat;
     Tf.elem := fun idx =>
       match idx with
       | [_; channel; anchor] =>
           if Nat.eqb anchor 4242 then nth channel (Sample.anchorRow 0.9) 0
           else if Nat.eqb channel 4 then 0
           else 7
       | _ => 0
       end |}.

(** A network that answers [crowdedOutput]. *)
Definition crowdedNetwork (input : Tf.Tensor) : Tf.Tensor := crowdedOutput.

(** Props of the live-video renderer with keypoints on either side of the
    frame. *)
Definition liveProps : LiveVideo.Props :=
  {| LiveVideo.ctx := [];
     LiveVideo.keypoints := [(-8, 320, 0.9); (700, 700, 0.8); (320, 320, 0.2)];
     LiveVideo.width := 400;
     LiveVideo.height := 300;
     LiveVideo.source := Sample.landscape400x300;
     LiveVideo.scale := 0.625;
     LiveVideo.dx := 0;
     LiveVideo.dy := 50 |}.

End Scene.

(** ** The selection, in the words of the specification *)

Module Spec.

(** Entry of channel [c] at anchor [a] of a raw output (batch 0). *)
Definition channel (raw : Tf.Tensor) (c a : nat) : Q :=
  Tf.elem raw [0; c; a]%nat.

(** Following the specification: anchor [i] carries the maximal objectness
    (channel 4) among [anchors] anchors, and no earlier anchor reaches it. *)
Definition isBestAnchor (raw : Tf.Tensor) (anchors i : nat) : Prop :=
  (i < anchors)%nat /\
  (forall a, (a < anchors)%nat -> channel raw 4 a <= channel raw 4 i) /\
  (forall a, (a < i)%nat -> channel raw 4 a < channel raw 4 i).

(** Following the specification: [x1 = cx - w/2, y1 = cy - h/2,
    x2 = x1 + w, y2 = y1 + h]. *)
Definition cornerBox (cx cy w h : Q) : BoundingBox :=
  let x1 := cx - w / 2 in
  let y1 := cy - h / 2 in
  (x1, y1, x1 + w, y1 + h).

(** Following the specification: the channels after the fifth, grouped
    into [count] triplets [(x, y, confidence)] in channel order. *)
Definition keypointsAt (raw : Tf.Tensor) (count i : nat) : list Keypoint :=
  map (fun j => (channel raw (5 + 3 * j) i,
                 channel raw (5 + 3 * j + 1) i,
                 channel raw (5 + 3 * j + 2) i))
      (seq 0 count).

(** A box as the array [[x1, y1, x2, y2]]. *)
Definition asArray (b : BoundingBox) : list Q :=
  let '(x1, y1, x2, y2) := b in [x1; y1; x2; y2].

(** Boxes equal as rational numbers, corner by corner. *)
Definition boxEq (a b : BoundingBox) : Prop :=
  let '(a1, a2, a3, a4) := a in
  let '(b1, b2, b3, b4) := b in
  a1 == b1 /\ a2 == b2 /\ a3 == b3 /\ a4 == b4.

End Spec.

(** ** Reading the canvas trace *)

Module Marks.

(** [Math.max(0, Math.min(v, hi))]. *)
Definition clamp (v hi : Q) : Q := Qmax 0 (Qmin v hi).

(** The marks of the demo renderers: one red disc per keypoint whose
    confidence is above 0.5, in order. *)
Definition demo (kps : list Keypoint) : Canvas.t :=
  flat_map (fun '(x, y, _) =>
              [Canvas.BeginPath; Canvas.Arc x y 5 0 2;
               Canvas.SetFillStyle "red"; Canvas.Fill])
           (filter (fun '(_, _, c) => Qltb 0.5 c) kps).

(** The marks of the live renderer: the confident keypoints, unmapped by
    [transformCoordinate] and clamped to the frame. *)
Definition live (scale dx dy width height : Q) (kps : list Keypoint)
  : Canvas.t :=
  flat_map (fun '(x, y, _) =>
              [Canvas.BeginPath;
               Canvas.Arc (clamp (Index.transformCoordinate x scale dx) width)
                          (clamp (Index.transformCoordinate y scale dy) height)
                          5 0 2;
               Canvas.SetFillStyle "red"; Canvas.Fill])
           (filter (fun '(_, _, c) => Qltb 0.5 c) kps).

End Marks.

(** * Properties *)

(** ** Numbers *)

Lemma Qltb_lt (x y : Q) : Qltb x y = true <-> x < y.
Proof.
  unfold Qltb. rewrite Qlt_alt.
  destruct (x ?= y); split; congruence.
Qed.

Lemma Qltb_ge (x y : Q) : Qltb x y = false <-> y <= x.
Proof.
  rewrite <- not_true_iff_false, Qltb_lt.
  split; [apply Qnot_lt_le | apply Qle_not_lt].
Qed.

Lemma inject_Z_nonzero (z : Z) : z <> 0%Z -> ~ inject_Z z == 0.
Proof. unfold Qeq, inject_Z. simpl. lia. Qed.

(** [Math.floor(total / 2)] is the integer quotient rounded down. *)
Lemma floorHalf_div (total : Z) : Index.floorHalf total = (total / 2)%Z.
Proof.
  unfold Index.floorHalf, Qfloor, Qdiv, Qmult, Qinv, inject_Z. simpl.
  now rewrite Z.mul_1_r.
Qed.

(** ** Letterbox transform *)

Section Letterbox.

Import Index.

Variables originalWidth originalHeight : Z.

Let p := letterboxPadding originalWidth originalHeight.

Lemma letterbox_left : leftPadding p = ((targetSquareSize p - originalWidth) / 2)%Z.
Proof. apply floorHalf_div. Qed.

Lemma letterbox_top : topPadding p = ((targetSquareSize p - originalHeight) / 2)%Z.
Proof. apply floorHalf_div. Qed.

Lemma letterbox_target : targetSquareSize p = Z.max originalWidth originalHeight.
Proof. reflexivity. Qed.

(** No padding is negative, whatever the dimensions. *)
Lemma letterbox_nonnegative :
  (0 <= leftPadding p /\ 0 <= rightPadding p /\
   0 <= topPadding p /\ 0 <= bottomPadding p)%Z.
Proof.
  pose proof letterbox_left as Hl. pose proof letterbox_top as Ht.
  unfold p in *. cbn [letterboxPadding targetSquareSize leftPadding
    rightPadding topPadding bottomPadding] in *.
  rewrite !floorHalf_div.
  pose proof (Z.div_mod (Z.max originalWidth originalHeight - originalWidth) 2).
  pose proof (Z.mod_pos_bound (Z.max originalWidth originalHeight - originalWidth) 2).
  pose proof (Z.div_mod (Z.max originalWidth originalHeight - originalHeight) 2).
  pose proof (Z.mod_pos_bound (Z.max originalWidth originalHeight - originalHeight) 2).
  lia.
Qed.

End Letterbox.

(** C3: whatever the source dimensions, the left padding (which is the
    returned [xOffset]) plus the source width plus the right padding is
    exactly [max(width, height)], and likewise top + height + bottom; the
    leading padding is [floor(diff / 2)], the trailing one the remainder, so
    the trailing side exceeds the leading one by 0 or 1 pixel, and by 1
    exactly when the difference is odd. *)
Theorem letterbox_padding_totals_exact :
  forall (source : Element.t) (model : GraphModel),
    let w := Element.width source in
    let h := Element.height source in
    let p := Index.letterboxPadding w h in
    let params := Index.transformParams (Index.processImageWithLetterboxing source model) in
    let target := Index.targetSquareSize p in
    target = Z.max w h /\
    xOffset params = inject_Z (Index.leftPadding p) /\
    yOffset params = inject_Z (Index.topPadding p) /\
    (Index.leftPadding p + w + Index.rightPadding p = target)%Z /\
    (Index.topPadding p + h + Index.bottomPadding p = target)%Z /\
    Index.leftPadding p = ((target - w) / 2)%Z /\
    Index.topPadding p = ((target - h) / 2)%Z /\
    (Index.rightPadding p = (target - w) - Index.leftPadding p)%Z /\
    (Index.bottomPadding p = (target - h) - Index.topPadding p)%Z /\
    (Index.rightPadding p - Index.leftPadding p = (target - w) mod 2)%Z /\
    (Index.bottomPadding p - Index.topPadding p = (target - h) mod 2)%Z /\
    (0 <= Index.rightPadding p - Index.leftPadding p <= 1)%Z /\
    (0 <= Index.bottomPadding p - Index.topPadding p <= 1)%Z /\
    ((Index.rightPadding p - Index.leftPadding p = 1)%Z <-> Z.odd (target - w) = true) /\
    ((Index.bottomPadding p - Index.topPadding p = 1)%Z <-> Z.odd (target - h) = true).
Proof.
  intros source model w h p params target.
  assert (Hl : Index.leftPadding p = ((target - w) / 2)%Z)
    by apply letterbox_left.
  assert (Ht : Index.topPadding p = ((target - h) / 2)%Z)
    by apply letterbox_top.
  assert (Hr : (Index.rightPadding p = (target - w) - Index.leftPadding p)%Z)
    by reflexivity.
  assert (Hb : (Index.bottomPadding p = (target - h) - Index.topPadding p)%Z)
    by reflexivity.
  pose proof (Z.div_mod (target - w) 2 ltac:(lia)) as Hdw.
  pose proof (Z.mod_pos_bound (target - w) 2 ltac:(lia)) as Hmw.
  pose proof (Z.div_mod (target - h) 2 ltac:(lia)) as Hdh.
  pose proof (Z.mod_pos_bound (target - h) 2 ltac:(lia)) as Hmh.
  pose proof (Zmod_odd (target - w)) as How.
  pose proof (Zmod_odd (target - h)) as Hoh.
  repeat split; try reflexivity; try assumption; try lia.
  - intro H. destruct (Z.odd (target - w)); [reflexivity | lia].
  - intro H. rewrite H in How. lia.
  - intro H. destruct (Z.odd (target - h)); [reflexivity | lia].
  - intro H. rewrite H in Hoh. lia.
Qed.


(** C1: for a source with positive width and height and a square model
    input of positive size, sending a source coordinate through the forward
    steps (add the padding offset of its axis, divide by
    [scale = max(width, height) / modelWidth]) and then through
    [transformCoordinate] with the returned parameters gives back the
    coordinate exactly, on both axes; the error is therefore within 1e-4. *)
Theorem letterbox_round_trip :
  forall (source : Element.t) (model : GraphModel)
         (batch modelHeight modelWidth channels : Z) (x y : Q),
    inputShape model = [batch; modelHeight; modelWidth; channels] ->
    (0 < Element.width source)%Z ->
    (0 < Element.height source)%Z ->
    (0 < modelWidth)%Z ->
    modelHeight = modelWidth ->
    let params :=
      Index.transformParams (Index.processImageWithLetterboxing source model) in
    let backX :=
      Index.transformCoordinate (Geometry.forwardX source model x)
                                (scale params) (xOffset params) in
    let backY :=
      Index.transformCoordinate (Geometry.forwardY source model y)
                                (scale params) (yOffset params) in
    scale params ==
      inject_Z (Z.max (Element.width source) (Element.height source))
      / inject_Z modelWidth /\
    Geometry.forwardX source model x = (x + xOffset params) / scale params /\
    Geometry.forwardY source model y = (y + yOffset params) / scale params /\
    backX == x /\ backY == y /\
    Qabs (backX - x) <= 1 / 10000 /\ Qabs (backY - y) <= 1 / 10000.
Proof.
  intros source model batch modelHeight modelWidth channels x y
         Hshape Hw Hh Hm Hsq params backX backY.
  subst modelHeight.
  assert (Ht : ~ inject_Z (Z.max (Element.width source) (Element.height source)) == 0).
  { apply inject_Z_nonzero. lia. }
  assert (Hmw : ~ inject_Z modelWidth == 0).
  { apply inject_Z_nonzero. lia. }
  assert (Hx : backX == x).
  { unfold backX, params, Index.transformCoordinate, Geometry.forwardX,
      Geometry.resizeCoordinate, Geometry.padCoordinate,
      Index.processImageWithLetterboxing.
    cbn [Index.transformParams scale xOffset]. rewrite Hshape.
    cbn [nth Index.letterboxPadding Index.targetSquareSize Index.leftPadding].
    field. split; assumption. }
  assert (Hy : backY == y).
  { unfold backY, params, Index.transformCoordinate, Geometry.forwardY,
      Geometry.resizeCoordinate, Geometry.padCoordinate,
      Index.processImageWithLetterboxing.
    cbn [Index.transformParams scale yOffset]. rewrite Hshape.
    cbn [nth Index.letterboxPadding Index.targetSquareSize Index.topPadding].
    field. split; assumption. }
  split; [| split; [| split; [| split; [| split; [| split]]]]].
  - unfold params, Index.processImageWithLetterboxing.
    cbn [Index.transformParams scale]. rewrite Hshape. reflexivity.
  - unfold params, Geometry.forwardX, Index.processImageWithLetterboxing.
    cbn [Index.transformParams scale xOffset]. rewrite Hshape. reflexivity.
  - unfold params, Geometry.forwardY, Index.processImageWithLetterboxing.
    cbn [Index.transformParams scale yOffset]. rewrite Hshape. reflexivity.
  - exact Hx.
  - exact Hy.
  - rewrite Hx. setoid_replace (x - x) with 0 by ring. discriminate.
  - rewrite Hy. setoid_replace (y - y) with 0 by ring. discriminate.
Qed.

Lemma letterbox_round_trip_witness :
  (let params :=
     Index.transformParams
       (Index.processImageWithLetterboxing Sample.oddDifference Sample.model640) in
   Index.transformCoordinate
     (Geometry.forwardX Sample.oddDifference Sample.model640 125)
     (scale params) (xOffset params) == 125 /\
   Index.transformCoordinate
     (Geometry.forwardY Sample.oddDifference Sample.model640 50)
     (scale params) (yOffset params) == 50) /\
  (let params :=
     Index.transformParams
       (Index.processImageWithLetterboxing Sample.square Sample.model640) in
   Index.transformCoordinate
     (Geometry.forwardX Sample.square Sample.model640 (1 # 3))
     (scale params) (xOffset params) == 1 # 3 /\
   Index.transformCoordinate
     (Geometry.forwardY Sample.square Sample.model640 639)
     (scale params) (yOffset params) == 639) /\
  (let params :=
     Index.transformParams
       (Index.processImageWithLetterboxing Sample.wide Sample.model640) in
   Index.transformCoordinate
     (Geometry.forwardX Sample.wide Sample.model640 320)
     (scale params) (xOffset params) == 320 /\
   Index.transformCoordinate
     (Geometry.forwardY Sample.wide Sample.model640 180)
     (scale params) (yOffset params) == 180) /\
  (let params :=
     Index.transformParams
       (Index.processImageWithLetterboxing Sample.tall Sample.model640) in
   Index.transformCoordinate
     (Geometry.forwardX Sample.tall Sample.model640 (-7))
     (scale params) (xOffset params) == -7 /\
   Index.transformCoordinate
     (Geometry.forwardY Sample.tall Sample.model640 700)
     (scale params) (yOffset params) == 700).
Proof.
  refine (conj _ (conj _ (conj _ _))).
  - destruct (letterbox_round_trip Sample.oddDifference Sample.model640
                1 640 640 3 125 50) as (_ & _ & _ & Hx & Hy & _);
      [reflexivity | reflexivity | reflexivity | reflexivity | reflexivity |].
    exact (conj Hx Hy).
  - destruct (letterbox_round_trip Sample.square Sample.model640
                1 640 640 3 (1 # 3) 639) as (_ & _ & _ & Hx & Hy & _);
      [reflexivity | reflexivity | reflexivity | reflexivity | reflexivity |].
    exact (conj Hx Hy).
  - destruct (letterbox_round_trip Sample.wide Sample.model640
                1 640 640 3 320 180) as (_ & _ & _ & Hx & Hy & _);
      [reflexivity | reflexivity | reflexivity | reflexivity | reflexivity |].
    exact (conj Hx Hy).
  - destruct (letterbox_round_trip Sample.tall Sample.model640
                1 640 640 3 (-7) 700) as (_ & _ & _ & Hx & Hy & _);
      [reflexivity | reflexivity | reflexivity | reflexivity | reflexivity |].
    exact (conj Hx Hy).
Defined.

(** *** What the forward steps do to the image *)

(** Step 2 makes the image square: both sides of the padded image measure
    [max(width, height)]. *)
Lemma letterboxedImage_is_square (source : Element.t) (channels : nat) :
  let w := Element.width source in
  let h := Element.height source in
  Tf.shape (Element.fromPixels source) = [Z.to_nat h; Z.to_nat w; channels] ->
  (0 <= w)%Z -> (0 <= h)%Z ->
  Tf.shape (Index.letterboxedImageOf source)
  = [Z.to_nat (Z.max w h); Z.to_nat (Z.max w h); channels].
Proof.
  intros w h Hshape Hw Hh.
  unfold Index.letterboxedImageOf. cbn [Tf.shape Tf.pad Tf.div].
  rewrite Hshape. cbn [Tf.padShape].
  fold w h.
  pose proof (letterbox_nonnegative w h) as Hpos.
  cbn [Index.letterboxPadding Index.targetSquareSize Index.leftPadding
       Index.rightPadding Index.topPadding Index.bottomPadding] in *.
  repeat f_equal; lia.
Qed.

(** Step 2 moves the source pixel of row [y] and column [x] to row
    [y + topPadding] and column [x + leftPadding], which is what
    [padCoordinate] says of coordinates. *)
Lemma letterboxedImage_places_pixels (source : Element.t) (channels : nat)
      (y x d : nat) :
  let w := Element.width source in
  let h := Element.height source in
  let p := Index.letterboxPadding w h in
  Tf.shape (Element.fromPixels source) = [Z.to_nat h; Z.to_nat w; channels] ->
  (y < Z.to_nat h)%nat -> (x < Z.to_nat w)%nat -> (d < channels)%nat ->
  Tf.elem (Index.letterboxedImageOf source)
          [(Z.to_nat (Index.topPadding p) + y)%nat;
           (Z.to_nat (Index.leftPadding p) + x)%nat; d]
  = Tf.elem (Element.fromPixels source) [y; x; d] / 255.
Proof.
  intros w h p Hshape Hy Hx Hd.
  unfold Index.letterboxedImageOf. fold w h p.
  cbn [Tf.elem Tf.pad Tf.shape Tf.div]. rewrite Hshape. cbn [Tf.padIndex].
  replace (Z.to_nat (Index.topPadding p) <=? Z.to_nat (Index.topPadding p) + y)%nat
    with true by (symmetry; apply Nat.leb_le; lia).
  replace (Z.to_nat (Index.topPadding p) + y
           <? Z.to_nat (Index.topPadding p) + Z.to_nat h)%nat
    with true by (symmetry; apply Nat.ltb_lt; lia).
  replace (Z.to_nat (Index.leftPadding p) <=? Z.to_nat (Index.leftPadding p) + x)%nat
    with true by (symmetry; apply Nat.leb_le; lia).
  replace (Z.to_nat (Index.leftPadding p) + x
           <? Z.to_nat (Index.leftPadding p) + Z.to_nat w)%nat
    with true by (symmetry; apply Nat.ltb_lt; lia).
  replace (d <? 0 + channels)%nat with true by (symmetry; apply Nat.ltb_lt; lia).
  cbn [andb Nat.leb option_map].
  repeat f_equal; lia.
Qed.

(** The padding itself is black. *)
Lemma letterboxedImage_bars_are_black (source : Element.t) (channels : nat)
      (y x d : nat) :
  let w := Element.width source in
  let h := Element.height source in
  let p := Index.letterboxPadding w h in
  Tf.shape (Element.fromPixels source) = [Z.to_nat h; Z.to_nat w; channels] ->
  (y < Z.to_nat (Index.topPadding p) \/ x < Z.to_nat (Index.leftPadding p))%nat ->
  Tf.elem (Index.letterboxedImageOf source) [y; x; d] = 0.
Proof.
  intros w h p Hshape Hbar.
  unfold Index.letterboxedImageOf. fold w h p.
  cbn [Tf.elem Tf.pad Tf.shape Tf.div]. rewrite Hshape. cbn [Tf.padIndex].
  destruct Hbar as [Hy | Hx].
  - replace (Z.to_nat (Index.topPadding p) <=? y)%nat
      with false by (symmetry; apply Nat.leb_gt; lia).
    reflexivity.
  - replace (Z.to_nat (Index.leftPadding p) <=? x)%nat
      with false by (symmetry; apply Nat.leb_gt; lia).
    cbn [andb]. destruct (_ && _)%bool; reflexivity.
Qed.

(** Steps 3 and 4: the network receives [1, modelHeight, modelWidth,
    channels]. *)
Lemma processedImage_shape (source : Element.t) (model : GraphModel)
      (channels : nat) (batch modelHeight modelWidth depth : Z) :
  inputShape model = [batch; modelHeight; modelWidth; depth] ->
  Tf.shape (Element.fromPixels source)
  = [Z.to_nat (Element.height source); Z.to_nat (Element.width source); channels] ->
  Tf.shape (Index.processedImage (Index.processImageWithLetterboxing source model))
  = [1%nat; Z.to_nat modelHeight; Z.to_nat modelWidth; channels].
Proof.
  intros Hmodel Hshape.
  unfold Index.processImageWithLetterboxing. rewrite Hmodel.
  cbn [Index.processedImage Tf.expandDims0 Tf.shape Tf.resizeBilinear nth].
  unfold Index.letterboxedImageOf. cbn [Tf.shape Tf.pad Tf.div].
  rewrite Hshape. cbn [Tf.padShape nth Nat.add].
  now rewrite Nat.add_0_r.
Qed.

(** Step 3 shows at an output pixel the input pixel found [ratio] times
    farther, whenever that position falls on a pixel: column [c] of the
    output is column [c * (width / newWidth)] of the input, which is what
    [resizeCoordinate] inverts. *)
Lemma resizeBilinear_samples (t : Tf.Tensor)
      (oldHeight oldWidth depth newHeight newWidth r c d a b : nat) :
  Tf.shape t = [oldHeight; oldWidth; depth] ->
  inject_Z (Z.of_nat oldHeight) / inject_Z (Z.of_nat newHeight)
    * inject_Z (Z.of_nat r) == inject_Z (Z.of_nat a) ->
  inject_Z (Z.of_nat oldWidth) / inject_Z (Z.of_nat newWidth)
    * inject_Z (Z.of_nat c) == inject_Z (Z.of_nat b) ->
  (a < oldHeight)%nat -> (b < oldWidth)%nat ->
  Tf.elem (Tf.resizeBilinear t (newHeight, newWidth)) [r; c; d]
  == Tf.elem t [a; b; d].
Proof.
  intros Hshape Hrow Hcol Ha Hb.
  unfold Tf.resizeBilinear. cbn [Tf.elem]. rewrite Hshape. cbn [nth].
  assert (Hrf : Qfloor (inject_Z (Z.of_nat oldHeight) / inject_Z (Z.of_nat newHeight)
                        * inject_Z (Z.of_nat r)) = Z.of_nat a)
    by (rewrite Hrow; apply Qfloor_Z).
  assert (Hrc : Qceiling (inject_Z (Z.of_nat oldHeight) / inject_Z (Z.of_nat newHeight)
                          * inject_Z (Z.of_nat r)) = Z.of_nat a)
    by (rewrite Hrow; apply Qceiling_Z).
  assert (Hcf : Qfloor (inject_Z (Z.of_nat oldWidth) / inject_Z (Z.of_nat newWidth)
                        * inject_Z (Z.of_nat c)) = Z.of_nat b)
    by (rewrite Hcol; apply Qfloor_Z).
  assert (Hcc : Qceiling (inject_Z (Z.of_nat oldWidth) / inject_Z (Z.of_nat newWidth)
                          * inject_Z (Z.of_nat c)) = Z.of_nat b)
    by (rewrite Hcol; apply Qceiling_Z).
  rewrite Hrf, Hrc, Hcf, Hcc.
  replace (Z.to_nat (Z.max 0 (Z.of_nat a))) with a by lia.
  replace (Z.to_nat (Z.max 0 (Z.of_nat b))) with b by lia.
  replace (Z.to_nat (Z.min (Z.of_nat oldHeight - 1) (Z.of_nat a))) with a by lia.
  replace (Z.to_nat (Z.min (Z.of_nat oldWidth - 1) (Z.of_nat b))) with b by lia.
  ring.
Qed.

(** With a model input that is not square the single width-derived scale
    no longer undoes the resize of the rows. *)
Lemma round_trip_needs_square_model :
  let params :=
    Index.transformParams
      (Index.processImageWithLetterboxing Sample.square Sample.model640x320) in
  Index.transformCoordinate (Geometry.forwardX Sample.square Sample.model640x320 100)
                            (scale params) (xOffset params) == 100 /\
  Index.transformCoordinate (Geometry.forwardY Sample.square Sample.model640x320 100)
                            (scale params) (yOffset params) == 50.
Proof. split; reflexivity. Qed.

(** ** Coordinate unmapping *)

(** C5: [scalePrediction] rewrites every box corner and every keypoint
    position by [coord * scale - offset], with [xOffset] on x-coordinates
    and [yOffset] on y-coordinates; the score and every keypoint confidence
    come back as they went in, keypoints keep their number and order, and
    nothing is clamped (the formula is the whole result). *)
Theorem scalePrediction_unmaps_each_coordinate :
  forall (x1 y1 x2 y2 s : Q) (kps : list Keypoint) (params : TransformParams),
    let detection := {| box := (x1, y1, x2, y2); score := s; keypoints := kps |} in
    let unmapped := Index.scalePrediction detection params in
    box unmapped =
      (x1 * scale params - xOffset params, y1 * scale params - yOffset params,
       x2 * scale params - xOffset params, y2 * scale params - yOffset params) /\
    score unmapped = s /\
    length (keypoints unmapped) = length kps /\
    (forall i x y confidence,
        nth_error kps i = Some (x, y, confidence) ->
        nth_error (keypoints unmapped) i =
          Some (x * scale params - xOffset params,
                y * scale params - yOffset params,
                confidence)) /\
    (forall i, nth_error kps i = None -> nth_error (keypoints unmapped) i = None).
Proof.
  intros x1 y1 x2 y2 s kps params detection unmapped.
  unfold unmapped, detection, Index.scalePrediction, Index.transformCoordinate.
  cbn [box score keypoints].
  repeat split.
  - apply length_map.
  - intros i x y confidence H. unfold Keypoint in *.
    rewrite nth_error_map, H. reflexivity.
  - intros i H. unfold Keypoint in *.
    rewrite nth_error_map, H. reflexivity.
Qed.

(** The unmapped coordinates may leave the source frame on either side:
    a corner left of the padded square lands at a negative x, one at the
    far edge of the model input lands beyond the source height. *)
Lemma scalePrediction_leaves_source_bounds :
  let params :=
    Index.transformParams
      (Index.processImageWithLetterboxing Sample.landscape400x300 Sample.model640) in
  let unmapped :=
    Index.scalePrediction
      {| box := (-16, 0, 640, 640); score := 1; keypoints := [(650, -3, 1)] |}
      params in
  box unmapped = ((-6400 # 640), (0 # 640) - 50, (256000 # 640), (256000 # 640) - 50) /\
  keypoints unmapped = [((260000 # 640), (-1200 # 640) - 50, 1)] /\
  (-6400 # 640) < 0 /\ originalHeight params < (256000 # 640) - 50.
Proof. repeat split. Qed.

(** ** Render gate *)

Lemma drawKeypoint_appends (ctx : Canvas.t) (kp : Keypoint) :
  Index.drawKeypoint ctx kp = ctx ++ Index.drawKeypoint [] kp.
Proof.
  destruct kp as [[x y] confidence]. unfold Index.drawKeypoint.
  destruct (Qltb Index.CONFIDENCE_THRESHOLD confidence);
    [reflexivity | now rewrite app_nil_r].
Qed.

Lemma fold_drawKeypoint (kps : list Keypoint) :
  forall ctx : Canvas.t,
    fold_left Index.drawKeypoint kps ctx
    = ctx ++ flat_map (Index.drawKeypoint []) kps.
Proof.
  induction kps as [| kp kps IH]; intro ctx; cbn [fold_left flat_map].
  - now rewrite app_nil_r.
  - rewrite IH, drawKeypoint_appends, <- app_assoc. reflexivity.
Qed.

Lemma variant_drawKeypoint_appends (ctx : Canvas.t) (kp : Keypoint) :
  LetterboxOutput.drawKeypoint ctx kp = ctx ++ LetterboxOutput.drawKeypoint [] kp.
Proof.
  destruct kp as [[x y] confidence]. unfold LetterboxOutput.drawKeypoint.
  destruct (Qltb LetterboxOutput.threshold confidence);
    [reflexivity | now rewrite app_nil_r].
Qed.

Lemma variant_fold_drawKeypoint (kps : list Keypoint) :
  forall ctx : Canvas.t,
    fold_left LetterboxOutput.drawKeypoint kps ctx
    = ctx ++ flat_map (LetterboxOutput.drawKeypoint []) kps.
Proof.
  induction kps as [| kp kps IH]; intro ctx; cbn [fold_left flat_map].
  - now rewrite app_nil_r.
  - rewrite IH, variant_drawKeypoint_appends, <- app_assoc. reflexivity.
Qed.

(** The marks of a keypoint list are those of its confident keypoints. *)
Lemma marks_are_filtered (kps : list Keypoint) :
  flat_map (Index.drawKeypoint []) kps
  = flat_map (fun '(x, y, _) => [Canvas.BeginPath; Canvas.Arc x y 5 0 2; Canvas.Fill])
             (filter (fun '(_, _, confidence) =>
                        Qltb Index.CONFIDENCE_THRESHOLD confidence) kps).
Proof.
  induction kps as [| [[x y] confidence] kps IH]; [reflexivity |].
  cbn [flat_map filter]. unfold Index.drawKeypoint at 1.
  destruct (Qltb Index.CONFIDENCE_THRESHOLD confidence); cbn [flat_map app];
    now rewrite IH.
Qed.

Lemma variant_marks_are_filtered (kps : list Keypoint) :
  flat_map (LetterboxOutput.drawKeypoint []) kps
  = flat_map (fun '(x, y, _) =>
                [Canvas.BeginPath; Canvas.Arc x y 5 0 2;
                 Canvas.SetFillStyle "red"; Canvas.Fill])
             (filter (fun '(_, _, confidence) =>
                        Qltb LetterboxOutput.threshold confidence) kps).
Proof.
  induction kps as [| [[x y] confidence] kps IH]; [reflexivity |].
  cbn [flat_map filter]. unfold LetterboxOutput.drawKeypoint at 1.
  destruct (Qltb LetterboxOutput.threshold confidence); cbn [flat_map app];
    now rewrite IH.
Qed.

(** What [renderPrediction] adds to the canvas once the gate is passed. *)
Lemma renderPrediction_passed (props : RenderPredictionProps.t) :
  Index.CONFIDENCE_THRESHOLD <= RenderPredictionProps.score props ->
  Index.renderPrediction props
  = RenderPredictionProps.canvas props
    ++ (let width := RenderPredictionProps.width props in
        let height := RenderPredictionProps.height props in
        let '(x1, y1, x2, y2) := RenderPredictionProps.box props in
        [Canvas.SetWidth width; Canvas.SetHeight height;
         Canvas.ClearRect 0 0 width height;
         Canvas.DrawImage (RenderPredictionProps.source props) 0 0 width height;
         Canvas.SetStrokeStyle "lime"; Canvas.SetLineWidth 2;
         Canvas.StrokeRect x1 y1 (x2 - x1) (y2 - y1);
         Canvas.SetFillStyle "red"])
    ++ flat_map (Index.drawKeypoint []) (RenderPredictionProps.keypoints props).
Proof.
  intro Hpass. apply Qltb_ge in Hpass.
  unfold Index.renderPrediction. rewrite Hpass.
  destruct (RenderPredictionProps.box props) as [[[x1 y1] x2] y2].
  rewrite fold_drawKeypoint, <- !app_assoc. reflexivity.
Qed.

Lemma variant_renderPrediction_passed (props : RenderPredictionProps.t) :
  LetterboxOutput.threshold <= RenderPredictionProps.score props ->
  LetterboxOutput.renderPrediction props
  = RenderPredictionProps.canvas props
    ++ (let width := RenderPredictionProps.width props in
        let height := RenderPredictionProps.height props in
        let '(x1, y1, x2, y2) := RenderPredictionProps.box props in
        [Canvas.SetWidth width; Canvas.SetHeight height;
         Canvas.ClearRect 0 0 width height;
         Canvas.DrawImage (RenderPredictionProps.source props) 0 0 width height;
         Canvas.SetStrokeStyle "lime"; Canvas.SetLineWidth 2;
         Canvas.StrokeRect x1 y1 (x2 - x1) (y2 - y1)])
    ++ flat_map (LetterboxOutput.drawKeypoint [])
                (RenderPredictionProps.keypoints props).
Proof.
  intro Hpass. apply Qltb_ge in Hpass.
  unfold LetterboxOutput.renderPrediction. rewrite Hpass.
  destruct (RenderPredictionProps.box props) as [[[x1 y1] x2] y2].
  rewrite variant_fold_drawKeypoint, <- !app_assoc. reflexivity.
Qed.

Lemma renderPrediction_skipped (props : RenderPredictionProps.t) :
  RenderPredictionProps.score props < Index.CONFIDENCE_THRESHOLD ->
  Index.renderPrediction props = RenderPredictionProps.canvas props.
Proof.
  intro Hlow. apply Qltb_lt in Hlow.
  unfold Index.renderPrediction. now rewrite Hlow.
Qed.

Lemma variant_renderPrediction_skipped (props : RenderPredictionProps.t) :
  RenderPredictionProps.score props < LetterboxOutput.threshold ->
  LetterboxOutput.renderPrediction props = RenderPredictionProps.canvas props.
Proof.
  intro Hlow. apply Qltb_lt in Hlow.
  unfold LetterboxOutput.renderPrediction. now rewrite Hlow.
Qed.

(** C6, as the code has it: the gate is [score < threshold].  Below the
    threshold the canvas comes back untouched (no operation at all); at the
    threshold and above it the canvas is sized to the frame and cleared,
    the source image is drawn and the box is stroked, then the keypoints
    are marked, so a score equal to the threshold is drawn.  The two
    renderers differ only in where the fill style is set. *)
Theorem render_gate_is_strict :
  forall props : RenderPredictionProps.t,
    let s := RenderPredictionProps.score props in
    let canvas := RenderPredictionProps.canvas props in
    let width := RenderPredictionProps.width props in
    let height := RenderPredictionProps.height props in
    let marked := RenderPredictionProps.keypoints props in
    let '(x1, y1, x2, y2) := RenderPredictionProps.box props in
    let frame :=
      [Canvas.SetWidth width; Canvas.SetHeight height;
       Canvas.ClearRect 0 0 width height;
       Canvas.DrawImage (RenderPredictionProps.source props) 0 0 width height] in
    let outline :=
      [Canvas.SetStrokeStyle "lime"; Canvas.SetLineWidth 2;
       Canvas.StrokeRect x1 y1 (x2 - x1) (y2 - y1)] in
    (s < Index.CONFIDENCE_THRESHOLD -> Index.renderPrediction props = canvas) /\
    (Index.CONFIDENCE_THRESHOLD <= s ->
     Index.renderPrediction props
     = canvas ++ frame ++ outline ++ [Canvas.SetFillStyle "red"]
         ++ flat_map (Index.drawKeypoint []) marked) /\
    (s == Index.CONFIDENCE_THRESHOLD -> Index.renderPrediction props <> canvas) /\
    (s < LetterboxOutput.threshold ->
     LetterboxOutput.renderPrediction props = canvas) /\
    (LetterboxOutput.threshold <= s ->
     LetterboxOutput.renderPrediction props
     = canvas ++ frame ++ outline
         ++ flat_map (LetterboxOutput.drawKeypoint []) marked) /\
    (s == LetterboxOutput.threshold ->
     LetterboxOutput.renderPrediction props <> canvas).
Proof.
  intros props.
  pose proof (renderPrediction_passed props) as Hdraw.
  pose proof (variant_renderPrediction_passed props) as Hdraw'.
  destruct (RenderPredictionProps.box props) as [[[x1 y1] x2] y2].
  cbv zeta in Hdraw, Hdraw'. cbv zeta.
  cbn [app] in Hdraw, Hdraw'. cbn [app].
  split; [| split; [| split; [| split; [| split]]]].
  - apply renderPrediction_skipped.
  - intro Hpass. rewrite (Hdraw Hpass). reflexivity.
  - intros Heq Hsame.
    rewrite Hdraw in Hsame by (rewrite Heq; apply Qle_refl).
    apply (f_equal (@length Canvas.Op)) in Hsame.
    rewrite length_app in Hsame. cbn [length] in Hsame. lia.
  - apply variant_renderPrediction_skipped.
  - intro Hpass. rewrite (Hdraw' Hpass). reflexivity.
  - intros Heq Hsame.
    rewrite Hdraw' in Hsame by (rewrite Heq; apply Qle_refl).
    apply (f_equal (@length Canvas.Op)) in Hsame.
    rewrite length_app in Hsame. cbn [length] in Hsame. lia.
Qed.

(** C6, as stated, fails: a detection whose score equals the threshold is
    not skipped; the frame, the box and the confident keypoint are drawn. *)
Lemma render_gate_draws_at_threshold :
  RenderPredictionProps.score Sample.atThreshold == Index.CONFIDENCE_THRESHOLD /\
  Index.renderPrediction Sample.atThreshold
    <> RenderPredictionProps.canvas Sample.atThreshold /\
  existsb Canvas.draws (Index.renderPrediction Sample.atThreshold) = true /\
  In (Canvas.StrokeRect 10 20 (110 - 10) (220 - 20))
     (Index.renderPrediction Sample.atThreshold) /\
  LetterboxOutput.renderPrediction Sample.atThreshold
    <> RenderPredictionProps.canvas Sample.atThreshold /\
  existsb Canvas.draws (LetterboxOutput.renderPrediction Sample.atThreshold) = true.
Proof.
  split; [reflexivity |].
  split; [intro H; apply (f_equal (@length _)) in H; discriminate H |].
  split; [reflexivity |].
  split; [cbn; tauto |].
  split; [intro H; apply (f_equal (@length _)) in H; discriminate H |].
  reflexivity.
Qed.

(** C7: once the detection-level gate is passed, the bounding box is
    always stroked, and the markers drawn are exactly those of the
    keypoints whose own confidence is strictly greater than the threshold,
    in keypoint order; a keypoint with confidence at or below the threshold
    leaves no marker.  Both renderers agree. *)
Theorem keypoints_gated_by_their_own_confidence :
  forall (props : RenderPredictionProps.t) (x1 y1 x2 y2 : Q),
    Index.CONFIDENCE_THRESHOLD <= RenderPredictionProps.score props ->
    RenderPredictionProps.box props = (x1, y1, x2, y2) ->
    let canvas := RenderPredictionProps.canvas props in
    let kps := RenderPredictionProps.keypoints props in
    let width := RenderPredictionProps.width props in
    let height := RenderPredictionProps.height props in
    let confident :=
      filter (fun '(_, _, confidence) =>
                Qltb Index.CONFIDENCE_THRESHOLD confidence) kps in
    Index.renderPrediction props
    = canvas
      ++ [Canvas.SetWidth width; Canvas.SetHeight height;
          Canvas.ClearRect 0 0 width height;
          Canvas.DrawImage (RenderPredictionProps.source props) 0 0 width height;
          Canvas.SetStrokeStyle "lime"; Canvas.SetLineWidth 2;
          Canvas.StrokeRect x1 y1 (x2 - x1) (y2 - y1);
          Canvas.SetFillStyle "red"]
      ++ flat_map (fun '(x, y, _) =>
                     [Canvas.BeginPath; Canvas.Arc x y 5 0 2; Canvas.Fill])
                  confident /\
    LetterboxOutput.renderPrediction props
    = canvas
      ++ [Canvas.SetWidth width; Canvas.SetHeight height;
          Canvas.ClearRect 0 0 width height;
          Canvas.DrawImage (RenderPredictionProps.source props) 0 0 width height;
          Canvas.SetStrokeStyle "lime"; Canvas.SetLineWidth 2;
          Canvas.StrokeRect x1 y1 (x2 - x1) (y2 - y1)]
      ++ flat_map (fun '(x, y, _) =>
                     [Canvas.BeginPath; Canvas.Arc x y 5 0 2;
                      Canvas.SetFillStyle "red"; Canvas.Fill])
                  confident /\
    (forall x y confidence,
        In (x, y, confidence) confident <->
        In (x, y, confidence) kps /\ Index.CONFIDENCE_THRESHOLD < confidence).
Proof.
  intros props x1 y1 x2 y2 Hpass Hbox canvas kps width height confident.
  split; [| split].
  - rewrite (renderPrediction_passed props Hpass), Hbox, marks_are_filtered.
    reflexivity.
  - rewrite (variant_renderPrediction_passed props Hpass), Hbox,
      variant_marks_are_filtered.
    reflexivity.
  - intros x y confidence. unfold confident.
    rewrite filter_In, Qltb_lt. reflexivity.
Qed.

Lemma keypoints_gated_by_their_own_confidence_witness :
  In (Canvas.Arc 50 60 5 0 2) (Index.renderPrediction Sample.atThreshold) /\
  ~ In (Canvas.Arc 30 40 5 0 2) (Index.renderPrediction Sample.atThreshold) /\
  In (Canvas.StrokeRect 10 20 (110 - 10) (220 - 20))
     (Index.renderPrediction Sample.atThreshold).
Proof.
  destruct (keypoints_gated_by_their_own_confidence
              Sample.atThreshold 10 20 110 220) as (Hrender & _ & _);
    [discriminate | reflexivity |].
  rewrite Hrender. cbn.
  repeat split; [tauto | | tauto].
  intros [H | [H | [H | [H | [H | [H | [H | [H | [H | [H | [H | H]]]]]]]]]]];
    try discriminate H; exact H.
Defined.

(** ** Tensor operations *)

Lemma flat_map_singleton {A B : Type} (f : A -> B) (l : list A) :
  flat_map (fun x => [f x]) l = map f l.
Proof. induction l as [| a l IH]; [reflexivity | cbn; now rewrite IH]. Qed.

(** The multi-indices of a [1, n, 1] tensor run over the middle axis. *)
Lemma indices_middle (n : nat) :
  Tf.indices [1; n; 1]%nat = map (fun a => [0; a; 0]%nat) (seq 0 n).
Proof.
  cbn [Tf.indices seq flat_map map app]. rewrite app_nil_r.
  rewrite (flat_map_singleton (fun j => [j; 0]%nat)), map_map. reflexivity.
Qed.

(** The multi-indices of a one-axis tensor. *)
Lemma indices_vector (n : nat) :
  Tf.indices [n] = map (fun k => [k]) (seq 0 n).
Proof.
  cbn [Tf.indices]. rewrite <- flat_map_singleton. reflexivity.
Qed.

(** [squeeze] followed by [dataSync] on a [1, 1, n] tensor reads the last
    axis in order, whatever [n] (for [n = 1] the result is a scalar). *)
Lemma dataSync_squeeze_last (t : Tf.Tensor) (n : nat) :
  Tf.shape t = [1; 1; n]%nat ->
  Tf.dataSync (Tf.squeeze t) = map (fun k => Tf.elem t [0; 0; k]%nat) (seq 0 n).
Proof.
  intro Hshape. unfold Tf.dataSync, Tf.squeeze. cbn [Tf.shape Tf.elem].
  rewrite Hshape. cbn [filter Nat.eqb negb].
  destruct (Nat.eqb n 1) eqn:Hn.
  - apply Nat.eqb_eq in Hn. subst n. reflexivity.
  - cbn [negb]. rewrite indices_vector, map_map.
    apply map_ext. intro k. cbn [Tf.unsqueezeIndex Nat.eqb].
    rewrite Hn. reflexivity.
Qed.

Lemma sliceSize_rest (d : nat) (b : Z) : Tf.sliceSize d b (-1) = (Z.of_nat d - b)%Z.
Proof. reflexivity. Qed.

Lemma sliceSize_given (d : nat) (b s : Z) : (0 <= s)%Z -> Tf.sliceSize d b s = s.
Proof. intro H. unfold Tf.sliceSize. apply Z.leb_le in H. now rewrite H. Qed.

(** A rank-3 [slice] whose request is in range returns the window. *)
Lemma slice3_returns (t : Tf.Tensor) (d0 d1 d2 : nat) (b0 b1 b2 s0 s1 s2 : Z) :
  Tf.shape t = [d0; d1; d2] ->
  (0 <= b0 /\ 0 <= b1 /\ 0 <= b2)%Z ->
  (-1 <= s0 /\ -1 <= s1 /\ -1 <= s2)%Z ->
  (b0 + Tf.sliceSize d0 b0 s0 <= Z.of_nat d0)%Z ->
  (b1 + Tf.sliceSize d1 b1 s1 <= Z.of_nat d1)%Z ->
  (b2 + Tf.sliceSize d2 b2 s2 <= Z.of_nat d2)%Z ->
  Tf.slice t [b0; b1; b2] [s0; s1; s2]
  = Returns {| Tf.shape := [Z.to_nat (Tf.sliceSize d0 b0 s0);
                            Z.to_nat (Tf.sliceSize d1 b1 s1);
                            Z.to_nat (Tf.sliceSize d2 b2 s2)];
               Tf.elem := fun idx => Tf.elem t (Tf.offsetIndex [b0; b1; b2] idx) |}.
Proof.
  intros Hshape (Hb0 & Hb1 & Hb2) (Hs0 & Hs1 & Hs2) H0 H1 H2.
  unfold Tf.slice. rewrite Hshape.
  cbn [length Nat.sub repeat app Nat.eqb andb negb existsb orb
       Tf.sliceSizes Tf.sliceFits map].
  replace (b0 =? -1)%Z with false by (symmetry; apply Z.eqb_neq; lia).
  replace (b1 =? -1)%Z with false by (symmetry; apply Z.eqb_neq; lia).
  replace (b2 =? -1)%Z with false by (symmetry; apply Z.eqb_neq; lia).
  replace (s0 <? -1)%Z with false by (symmetry; apply Z.ltb_ge; lia).
  replace (s1 <? -1)%Z with false by (symmetry; apply Z.ltb_ge; lia).
  replace (s2 <? -1)%Z with false by (symmetry; apply Z.ltb_ge; lia).
  cbn [orb].
  apply Z.leb_le in H0, H1, H2. rewrite H0, H1, H2. reflexivity.
Qed.

(** A rank-3 [slice] reaching past an axis is refused. *)
Lemma slice3_overflow (t : Tf.Tensor) (d0 d1 d2 : nat) (b0 b1 b2 s0 s1 s2 : Z) :
  Tf.shape t = [d0; d1; d2] ->
  (0 <= b0 /\ 0 <= b1 /\ 0 <= b2)%Z ->
  (-1 <= s0 /\ -1 <= s1 /\ -1 <= s2)%Z ->
  (Z.of_nat d0 < b0 + Tf.sliceSize d0 b0 s0 \/
   Z.of_nat d1 < b1 + Tf.sliceSize d1 b1 s1 \/
   Z.of_nat d2 < b2 + Tf.sliceSize d2 b2 s2)%Z ->
  Tf.slice t [b0; b1; b2] [s0; s1; s2] = Throws SliceOverflow.
Proof.
  intros Hshape (Hb0 & Hb1 & Hb2) (Hs0 & Hs1 & Hs2) Hover.
  unfold Tf.slice. rewrite Hshape.
  cbn [length Nat.sub repeat app Nat.eqb andb negb existsb orb
       Tf.sliceSizes Tf.sliceFits map].
  replace (b0 =? -1)%Z with false by (symmetry; apply Z.eqb_neq; lia).
  replace (b1 =? -1)%Z with false by (symmetry; apply Z.eqb_neq; lia).
  replace (b2 =? -1)%Z with false by (symmetry; apply Z.eqb_neq; lia).
  replace (s0 <? -1)%Z with false by (symmetry; apply Z.ltb_ge; lia).
  replace (s1 <? -1)%Z with false by (symmetry; apply Z.ltb_ge; lia).
  replace (s2 <? -1)%Z with false by (symmetry; apply Z.ltb_ge; lia).
  cbn [orb].
  destruct Hover as [H | [H | H]]; apply Z.leb_gt in H; rewrite H;
    rewrite ?andb_false_r; reflexivity.
Qed.

(** ** [Math.max] and [indexOf] *)

Lemma fold_maxStep (l : list Q) :
  forall h : Q,
    exists m, fold_left Js.maxStep l (Some h) = Some m /\
              h <= m /\ (forall x, In x l -> x <= m) /\ (m = h \/ In m l).
Proof.
  induction l as [| x l IH]; intro h; cbn [fold_left].
  - exists h. repeat split; [apply Qle_refl | intros x [] | now left].
  - cbn [Js.maxStep]. destruct (Qltb h x) eqn:Hcmp.
    + apply Qltb_lt in Hcmp.
      destruct (IH x) as (m & Hm & Hxm & Hall & Hin).
      exists m. repeat split.
      * exact Hm.
      * apply Qlt_le_weak. eapply Qlt_le_trans; eassumption.
      * intros y [<- | Hy]; [exact Hxm | now apply Hall].
      * right. destruct Hin as [-> | Hin]; [now left | now right].
    + apply Qltb_ge in Hcmp.
      destruct (IH h) as (m & Hm & Hhm & Hall & Hin).
      exists m. repeat split.
      * exact Hm.
      * exact Hhm.
      * intros y [<- | Hy]; [eapply Qle_trans; eassumption | now apply Hall].
      * destruct Hin as [-> | Hin]; [now left | right; now right].
Qed.

(** On a non-empty array the maximum is one of its entries. *)
Lemma mathMax_spec (l : list Q) :
  l <> [] ->
  exists m, Js.mathMax l = Some m /\ In m l /\ (forall x, In x l -> x <= m).
Proof.
  destruct l as [| x l]; [congruence | intros _].
  unfold Js.mathMax. cbn [fold_left Js.maxStep].
  destruct (fold_maxStep l x) as (m & Hm & Hxm & Hall & Hin).
  exists m. repeat split.
  - exact Hm.
  - destruct Hin as [-> | Hin]; [now left | now right].
  - intros y [<- | Hy]; [exact Hxm | now apply Hall].
Qed.

(** [indexOf] returns the first position of an entry that is present. *)
Lemma indexOfFrom_first (l : list Q) (m : Q) :
  forall start : Z,
    (exists x, In x l /\ x == m) ->
    exists i, (i < length l)%nat /\
              Js.indexOfFrom l m start = (start + Z.of_nat i)%Z /\
              nth i l 0 == m /\
              (forall j, (j < i)%nat -> ~ nth j l 0 == m).
Proof.
  induction l as [| y l IH]; intros start (x & Hin & Hx); [destruct Hin |].
  cbn [Js.indexOfFrom]. destruct (Qeq_bool y m) eqn:Hy.
  - exists 0%nat. repeat split.
    + cbn. lia.
    + lia.
    + now apply Qeq_bool_iff.
    + intros j Hj. lia.
  - assert (Hym : ~ y == m).
    { intro H. apply Qeq_bool_iff in H. congruence. }
    destruct Hin as [-> | Hin]; [contradiction |].
    destruct (IH (start + 1)%Z) as (i & Hi & Hidx & Hnth & Hfirst).
    { exists x. now split. }
    exists (S i). repeat split.
    + cbn. lia.
    + rewrite Hidx. lia.
    + exact Hnth.
    + intros [| j] Hj; [exact Hym | apply Hfirst; lia].
Qed.

(** [arr.indexOf(Math.max(...arr))] on a non-empty array: the first
    position holding the largest entry. *)
Lemma argmax_first (l : list Q) :
  l <> [] ->
  exists i, (i < length l)%nat /\
            Js.indexOf l (Js.mathMax l) = Z.of_nat i /\
            (forall j, (j < length l)%nat -> nth j l 0 <= nth i l 0) /\
            (forall j, (j < i)%nat -> nth j l 0 < nth i l 0).
Proof.
  intro Hne. destruct (mathMax_spec l Hne) as (m & Hmax & Hin & Hall).
  rewrite Hmax. cbn [Js.indexOf].
  destruct (indexOfFrom_first l m 0) as (i & Hi & Hidx & Hnth & Hfirst).
  { exists m. split; [exact Hin | reflexivity]. }
  exists i. repeat split.
  - exact Hi.
  - rewrite Hidx. lia.
  - intros j Hj. rewrite Hnth. apply Hall. now apply nth_In.
  - intros j Hj. rewrite Hnth.
    assert (Hle : nth j l 0 <= m) by (apply Hall, nth_In; lia).
    apply Qle_lteq in Hle.
    destruct Hle as [Hlt | Heq]; [exact Hlt | now apply Hfirst in Heq].
Qed.

Lemma get_in_range (l : list Q) (i : nat) :
  (i < length l)%nat -> Js.get l (Z.of_nat i) = Some (nth i l 0).
Proof.
  intro Hi. unfold Js.get.
  replace (Z.of_nat i <? 0)%Z with false by (symmetry; apply Z.ltb_ge; lia).
  rewrite Nat2Z.id. now apply nth_error_nth'.
Qed.

Lemma nth_map_seq (f : nat -> Q) (n i : nat) :
  (i < n)%nat -> nth i (map f (seq 0 n)) 0 = f i.
Proof.
  intro Hi. rewrite (nth_indep _ 0 (f 0%nat)) by now rewrite length_map, length_seq.
  rewrite map_nth, seq_nth by exact Hi. reflexivity.
Qed.

(** The grouping loop on [3 * k] values yields [k] triplets. *)
Lemma formatKeypoints_triplets (g : nat -> Q) (k : nat) :
  forall s : nat,
    Index.formatKeypoints (map g (seq s (3 * k)))
    = Returns (map (fun j => (g (s + 3 * j)%nat,
                              g (s + 3 * j + 1)%nat,
                              g (s + 3 * j + 2)%nat))
                   (seq 0 k)).
Proof.
  induction k as [| k IH]; intro s; [reflexivity |].
  replace (3 * S k)%nat with (S (S (S (3 * k)))) by lia.
  cbn [seq map Index.formatKeypoints].
  rewrite (IH (S (S (S s)))). cbn [bind].
  rewrite <- seq_shift, map_map.
  replace (s + 3 * 0)%nat with s by lia.
  replace (s + 1)%nat with (S s) by lia.
  replace (s + 2)%nat with (S (S s)) by lia.
  do 2 f_equal. apply map_ext. intro j.
  replace (s + 3 * S j)%nat with (S (S (S s)) + 3 * j)%nat by lia.
  reflexivity.
Qed.

(** ** Best-detection selector *)

Lemma transpose_021 (t : Tf.Tensor) (d0 d1 d2 : nat) :
  Tf.shape t = [d0; d1; d2] ->
  Tf.transpose t [0; 2; 1]%nat
  = Returns {| Tf.shape := [d0; d2; d1];
               Tf.elem := fun idx =>
                 Tf.elem t [nth 0 idx 0; nth 2 idx 0; nth 1 idx 0]%nat |}.
Proof.
  intro Hshape. unfold Tf.transpose. rewrite Hshape. reflexivity.
Qed.

(** One channel of every anchor: [slice(T, [0, 0, c], [-1, -1, 1])]. *)
Lemma slice_channel (T : Tf.Tensor) (anchors channels : nat) (c : Z) :
  Tf.shape T = [1; anchors; channels]%nat ->
  (0 <= c < Z.of_nat channels)%Z ->
  Tf.slice T [0; 0; c]%Z [-1; -1; 1]%Z
  = Returns {| Tf.shape := [1; anchors; 1]%nat;
               Tf.elem := fun idx => Tf.elem T (Tf.offsetIndex [0; 0; c]%Z idx) |}.
Proof.
  intros Hshape Hc.
  rewrite (slice3_returns T _ _ _ _ _ _ _ _ _ Hshape);
    rewrite ?sliceSize_rest, ?sliceSize_given; try lia.
  rewrite !Z.sub_0_r, !Nat2Z.id. reflexivity.
Qed.

(** The channels from [c] on: [slice(T, [0, 0, c], [-1, -1, -1])]. *)
Lemma slice_channels_from (T : Tf.Tensor) (anchors channels n : nat) (c : Z) :
  Tf.shape T = [1; anchors; channels]%nat ->
  (0 <= c)%Z -> (Z.of_nat channels - c = Z.of_nat n)%Z ->
  Tf.slice T [0; 0; c]%Z [-1; -1; -1]%Z
  = Returns {| Tf.shape := [1; anchors; n]%nat;
               Tf.elem := fun idx => Tf.elem T (Tf.offsetIndex [0; 0; c]%Z idx) |}.
Proof.
  intros Hshape Hc Hn.
  rewrite (slice3_returns T _ _ _ _ _ _ _ _ _ Hshape);
    rewrite ?sliceSize_rest; try lia.
  rewrite Hn, !Z.sub_0_r, !Nat2Z.id. reflexivity.
Qed.

(** One anchor: [slice(X, [0, i, 0], [1, 1, size])], [size] being [-1] or the
    whole last axis. *)
Lemma slice_anchor (X : Tf.Tensor) (anchors n i : nat) (size : Z) :
  Tf.shape X = [1; anchors; n]%nat ->
  (i < anchors)%nat ->
  size = (-1)%Z \/ size = Z.of_nat n ->
  Tf.slice X [0; Z.of_nat i; 0]%Z [1; 1; size]%Z
  = Returns {| Tf.shape := [1; 1; n]%nat;
               Tf.elem := fun idx =>
                 Tf.elem X (Tf.offsetIndex [0; Z.of_nat i; 0]%Z idx) |}.
Proof.
  intros Hshape Hi Hsize.
  assert (Hlast : Tf.sliceSize n 0 size = Z.of_nat n).
  { destruct Hsize as [-> | ->];
      [rewrite sliceSize_rest | rewrite sliceSize_given]; lia. }
  rewrite (slice3_returns X _ _ _ _ _ _ _ _ _ Hshape);
    rewrite ?Hlast, ?sliceSize_given; try lia.
  rewrite Nat2Z.id. reflexivity.
Qed.

(** What the selector does on any raw output of shape [1, 5 + n, anchors]
    with at least one anchor: it picks the first anchor of maximal
    objectness, converts its box, keeps its score, and groups its [n]
    remaining channel values. *)
Lemma getBestPrediction_by_anchor (t : Tf.Tensor) (n anchors : nat) :
  Tf.shape t = [1; 5 + n; anchors]%nat ->
  (1 <= anchors)%nat ->
  exists i,
    Spec.isBestAnchor t anchors i /\
    Index.getBestPrediction t
    = bind (Index.formatKeypoints
              (map (fun j => Spec.channel t (5 + j) i) (seq 0 n)))
           (fun formattedKeypoints =>
              Returns
                {| box := (Spec.channel t 0 i - Spec.channel t 2 i / 2,
                           Spec.channel t 1 i - Spec.channel t 3 i / 2,
                           Spec.channel t 0 i + Spec.channel t 2 i / 2,
                           Spec.channel t 1 i + Spec.channel t 3 i / 2);
                   score := Spec.channel t 4 i;
                   keypoints := formattedKeypoints |}).
Proof.
  intros Hshape Hanchors.
  unfold Index.getBestPrediction.
  rewrite (transpose_021 t _ _ _ Hshape). cbn [bind].
  set (T := {| Tf.shape := [1; anchors; 5 + n]%nat; Tf.elem := _ |}).
  assert (HT : Tf.shape T = [1; anchors; 5 + n]%nat) by reflexivity.
  rewrite !(slice_channel T _ _ _ HT) by lia.
  rewrite (slice_channels_from T _ _ n _ HT) by lia.
  cbn [bind].
  set (scores := Tf.dataSync _).
  assert (Hscores : scores = map (Spec.channel t 4) (seq 0 anchors)).
  { unfold scores, Tf.dataSync. cbn [Tf.shape].
    rewrite indices_middle, map_map. reflexivity. }
  destruct (argmax_first scores) as (i & Hi & Hidx & Hmax & Hfirst).
  { rewrite Hscores. destruct anchors; [lia | discriminate]. }
  rewrite Hscores, length_map, length_seq in Hi.
  assert (Hnth : forall a, (a < anchors)%nat -> nth a scores 0 = Spec.channel t 4 a).
  { intros a Ha. rewrite Hscores. now apply nth_map_seq. }
  exists i. split.
  { repeat split.
    - exact Hi.
    - intros a Ha. rewrite <- !Hnth by assumption. apply Hmax.
      rewrite Hscores, length_map, length_seq. exact Ha.
    - intros a Ha. rewrite <- !Hnth by lia. now apply Hfirst. }
  rewrite Hidx.
  rewrite !(fun X H => slice_anchor X anchors 1 i 1%Z H Hi (or_intror eq_refl))
    by reflexivity.
  rewrite (fun X H => slice_anchor X anchors n i (-1)%Z H Hi (or_introl eq_refl))
    by reflexivity.
  cbn [bind].
  assert (Helem : forall a b c a' b' c' : nat,
             a = a' -> b = b' -> c = c' ->
             Tf.elem t [a; b; c] = Tf.elem t [a'; b'; c'])
    by (intros; subst; reflexivity).
  rewrite (dataSync_squeeze_last _ n) by reflexivity.
  match goal with
  | |- bind (Index.formatKeypoints ?data) _ = _ =>
      replace data with (map (fun j => Spec.channel t (5 + j) i) (seq 0 n))
  end.
  2:{ apply map_ext. intro j. unfold Spec.channel, T.
      cbn [Tf.elem Tf.offsetIndex nth]. apply Helem; lia. }
  destruct (Index.formatKeypoints _) as [formattedKeypoints | e |];
    cbn [bind]; [| reflexivity | reflexivity].
  rewrite (dataSync_squeeze_last _ 4) by reflexivity.
  cbn [map seq Index.asBoundingBox bind].
  rewrite get_in_range by (rewrite Hscores, length_map, length_seq; exact Hi).
  rewrite Hnth by exact Hi. cbn [Index.defined bind].
  cbn [Tf.elem Tf.concat Tf.concatElem Tf.shape Tf.setAxis Tf.sub Tf.add Tf.div
       Tf.offsetIndex nth Nat.ltb Nat.leb Nat.sub].
  unfold Spec.channel, T. cbn [Tf.elem nth].
  do 2 f_equal.
  repeat (f_equal; try (apply Helem; lia)).
Qed.

(** The same for the selector of [02-output-processing.ts], which builds
    the far corner from the near one. *)
Lemma variant_getBestPrediction_by_anchor (t : Tf.Tensor) (n anchors : nat) :
  Tf.shape t = [1; 5 + n; anchors]%nat ->
  (1 <= anchors)%nat ->
  exists i,
    Spec.isBestAnchor t anchors i /\
    OutputProcessing.getBestPrediction t
    = bind (Index.formatKeypoints
              (map (fun j => Spec.channel t (5 + j) i) (seq 0 n)))
           (fun keypointsFormatted =>
              Returns
                {| OutputProcessing.box :=
                     [Spec.channel t 0 i - Spec.channel t 2 i / 2;
                      Spec.channel t 1 i - Spec.channel t 3 i / 2;
                      Spec.channel t 0 i - Spec.channel t 2 i / 2
                        + Spec.channel t 2 i;
                      Spec.channel t 1 i - Spec.channel t 3 i / 2
                        + Spec.channel t 3 i];
                   OutputProcessing.score := Spec.channel t 4 i;
                   OutputProcessing.keypoints := keypointsFormatted |}).
Proof.
  intros Hshape Hanchors.
  unfold OutputProcessing.getBestPrediction.
  rewrite (transpose_021 t _ _ _ Hshape). cbn [bind].
  set (T := {| Tf.shape := [1; anchors; 5 + n]%nat; Tf.elem := _ |}).
  assert (HT : Tf.shape T = [1; anchors; 5 + n]%nat) by reflexivity.
  rewrite !(slice_channel T _ _ _ HT) by lia.
  rewrite (slice_channels_from T _ _ n _ HT) by lia.
  cbn [bind].
  set (scores := Tf.dataSync _).
  assert (Hscores : scores = map (Spec.channel t 4) (seq 0 anchors)).
  { unfold scores, Tf.dataSync. cbn [Tf.shape].
    rewrite indices_middle, map_map. reflexivity. }
  destruct (argmax_first scores) as (i & Hi & Hidx & Hmax & Hfirst).
  { rewrite Hscores. destruct anchors; [lia | discriminate]. }
  rewrite Hscores, length_map, length_seq in Hi.
  assert (Hnth : forall a, (a < anchors)%nat -> nth a scores 0 = Spec.channel t 4 a).
  { intros a Ha. rewrite Hscores. now apply nth_map_seq. }
  exists i. split.
  { repeat split.
    - exact Hi.
    - intros a Ha. rewrite <- !Hnth by assumption. apply Hmax.
      rewrite Hscores, length_map, length_seq. exact Ha.
    - intros a Ha. rewrite <- !Hnth by lia. now apply Hfirst. }
  rewrite Hidx.
  rewrite !(fun X H => slice_anchor X anchors 1 i 1%Z H Hi (or_intror eq_refl))
    by reflexivity.
  rewrite (fun X H => slice_anchor X anchors n i (-1)%Z H Hi (or_introl eq_refl))
    by reflexivity.
  cbn [bind].
  assert (Helem : forall a b c a' b' c' : nat,
             a = a' -> b = b' -> c = c' ->
             Tf.elem t [a; b; c] = Tf.elem t [a'; b'; c'])
    by (intros; subst; reflexivity).
  rewrite (dataSync_squeeze_last _ n) by reflexivity.
  match goal with
  | |- bind (Index.formatKeypoints ?data) _ = _ =>
      replace data with (map (fun j => Spec.channel t (5 + j) i) (seq 0 n))
  end.
  2:{ apply map_ext. intro j. unfold Spec.channel, T.
      cbn [Tf.elem Tf.offsetIndex nth]. apply Helem; lia. }
  destruct (Index.formatKeypoints _) as [keypointsFormatted | e |];
    cbn [bind]; [| reflexivity | reflexivity].
  rewrite (dataSync_squeeze_last _ 4) by reflexivity.
  cbn [map seq bind].
  rewrite get_in_range by (rewrite Hscores, length_map, length_seq; exact Hi).
  rewrite Hnth by exact Hi. cbn [Index.defined bind].
  cbn [Tf.elem Tf.concat Tf.concatElem Tf.shape Tf.setAxis Tf.sub Tf.add Tf.div
       Tf.offsetIndex nth Nat.ltb Nat.leb Nat.sub].
  unfold Spec.channel, T. cbn [Tf.elem nth].
  do 2 f_equal.
  repeat (f_equal; try (apply Helem; lia)).
Qed.

Lemma isBestAnchor_unique (t : Tf.Tensor) (anchors i j : nat) :
  Spec.isBestAnchor t anchors i -> Spec.isBestAnchor t anchors j -> i = j.
Proof.
  intros (Hi & Hmaxi & Hfirsti) (Hj & Hmaxj & Hfirstj).
  destruct (Nat.lt_trichotomy i j) as [Hlt | [Heq | Hgt]]; [| exact Heq |].
  - exfalso. apply (Qlt_not_le _ _ (Hfirstj i Hlt)). now apply Hmaxi.
  - exfalso. apply (Qlt_not_le _ _ (Hfirsti j Hgt)). now apply Hmaxj.
Qed.

(** The triplets the grouping loop makes of the channels after the fifth. *)
Lemma formatKeypoints_channels (t : Tf.Tensor) (k i : nat) :
  Index.formatKeypoints (map (fun j => Spec.channel t (5 + j) i) (seq 0 (3 * k)))
  = Returns (Spec.keypointsAt t k i).
Proof.
  rewrite (formatKeypoints_triplets (fun j => Spec.channel t (5 + j) i) k 0).
  reflexivity.
Qed.


(** Both selectors, on any [1, 5 + 3k, anchors] output with an anchor:
    the first best anchor, its box, its score, its [k] keypoints. *)
Lemma selectors_return_first_best (t : Tf.Tensor) (k anchors : nat) :
  Tf.shape t = [1; 5 + 3 * k; anchors]%nat ->
  (1 <= anchors)%nat ->
  exists i,
    Spec.isBestAnchor t anchors i /\
    Index.getBestPrediction t
    = Returns
        {| box := (Spec.channel t 0 i - Spec.channel t 2 i / 2,
                   Spec.channel t 1 i - Spec.channel t 3 i / 2,
                   Spec.channel t 0 i + Spec.channel t 2 i / 2,
                   Spec.channel t 1 i + Spec.channel t 3 i / 2);
           score := Spec.channel t 4 i;
           keypoints := Spec.keypointsAt t k i |} /\
    OutputProcessing.getBestPrediction t
    = Returns
        {| OutputProcessing.box :=
             [Spec.channel t 0 i - Spec.channel t 2 i / 2;
              Spec.channel t 1 i - Spec.channel t 3 i / 2;
              Spec.channel t 0 i - Spec.channel t 2 i / 2 + Spec.channel t 2 i;
              Spec.channel t 1 i - Spec.channel t 3 i / 2 + Spec.channel t 3 i];
           OutputProcessing.score := Spec.channel t 4 i;
           OutputProcessing.keypoints := Spec.keypointsAt t k i |}.
Proof.
  intros Hshape Hanchors.
  destruct (getBestPrediction_by_anchor t (3 * k) anchors Hshape Hanchors)
    as (i & Hbest & Hindex).
  destruct (variant_getBestPrediction_by_anchor t (3 * k) anchors Hshape Hanchors)
    as (i' & Hbest' & Hvariant).
  assert (i' = i) by (eapply isBestAnchor_unique; eassumption). subst i'.
  exists i. split; [exact Hbest |].
  rewrite formatKeypoints_channels in Hindex, Hvariant.
  split; assumption.
Qed.

Lemma one_anchor_of_8400 : (1 <= 8400)%nat.
Proof. apply Nat.leb_le. vm_compute. reflexivity. Qed.

(** C2: on every raw output of shape [1, 56, 8400] the selector returns
    the box, score and 17 keypoints of the anchor whose objectness
    (channel 4) is maximal; among anchors sharing the maximum the one of
    lowest index is returned, so when all scores are equal anchor 0 wins.
    The score is never compared with a threshold and no other anchor
    influences the result.  The selector of [02-output-processing.ts]
    picks the same anchor. *)
Theorem getBestPrediction_returns_first_argmax :
  forall t : Tf.Tensor,
    Tf.shape t = [1; 56; 8400]%nat ->
    exists i,
      Spec.isBestAnchor t 8400 i /\
      (forall j, Spec.isBestAnchor t 8400 j -> j = i) /\
      ((forall a, (a < 8400)%nat -> Spec.channel t 4 a == Spec.channel t 4 0) ->
       i = 0%nat) /\
      Index.getBestPrediction t
      = Returns
          {| box := (Spec.channel t 0 i - Spec.channel t 2 i / 2,
                     Spec.channel t 1 i - Spec.channel t 3 i / 2,
                     Spec.channel t 0 i + Spec.channel t 2 i / 2,
                     Spec.channel t 1 i + Spec.channel t 3 i / 2);
             score := Spec.channel t 4 i;
             keypoints := Spec.keypointsAt t 17 i |} /\
      OutputProcessing.getBestPrediction t
      = Returns
          {| OutputProcessing.box :=
               [Spec.channel t 0 i - Spec.channel t 2 i / 2;
                Spec.channel t 1 i - Spec.channel t 3 i / 2;
                Spec.channel t 0 i - Spec.channel t 2 i / 2 + Spec.channel t 2 i;
                Spec.channel t 1 i - Spec.channel t 3 i / 2 + Spec.channel t 3 i];
             OutputProcessing.score := Spec.channel t 4 i;
             OutputProcessing.keypoints := Spec.keypointsAt t 17 i |}.
Proof.
  intros t Hshape.
  destruct (selectors_return_first_best t 17 8400 Hshape one_anchor_of_8400)
    as (i & Hbest & Hindex & Hvariant).
  exists i. repeat split; try assumption; try apply Hbest.
  - intros j Hj. eapply isBestAnchor_unique; eassumption.
  - intro Hequal. destruct Hbest as (Hi & _ & Hfirst).
    destruct i as [| i]; [reflexivity | exfalso].
    apply (Qlt_irrefl (Spec.channel t 4 (S i))).
    rewrite (Hequal (S i) Hi) at 1. apply Hfirst. lia.
Qed.

Lemma getBestPrediction_returns_first_argmax_witness :
  exists i,
    Spec.isBestAnchor Sample.rawOutput 8400 i /\
    Index.getBestPrediction Sample.rawOutput
    = Returns
        {| box := (Spec.channel Sample.rawOutput 0 i
                   - Spec.channel Sample.rawOutput 2 i / 2,
                   Spec.channel Sample.rawOutput 1 i
                   - Spec.channel Sample.rawOutput 3 i / 2,
                   Spec.channel Sample.rawOutput 0 i
                   + Spec.channel Sample.rawOutput 2 i / 2,
                   Spec.channel Sample.rawOutput 1 i
                   + Spec.channel Sample.rawOutput 3 i / 2);
           score := Spec.channel Sample.rawOutput 4 i;
           keypoints := Spec.keypointsAt Sample.rawOutput 17 i |}.
Proof.
  destruct (getBestPrediction_returns_first_argmax Sample.rawOutput)
    as (i & Hbest & _ & _ & Hindex & _); [reflexivity |].
  exists i. exact (conj Hbest Hindex).
Defined.

(** In the sample output the selected anchor is anchor 4242, the only one
    with a positive objectness. *)
Lemma sample_best_anchor : Spec.isBestAnchor Sample.rawOutput 8400 4242.
Proof.
  assert (Hscore : forall a,
             Spec.channel Sample.rawOutput 4 a
             = if Nat.eqb a 4242 then 0.9 else 0).
  { intro a. unfold Spec.channel, Sample.rawOutput. cbn [Tf.elem].
    destruct (Nat.eqb a 4242); reflexivity. }
  repeat split.
  - apply Nat.ltb_lt. vm_compute. reflexivity.
  - intros a _. rewrite !Hscore. cbn [Nat.eqb].
    destruct (Nat.eqb a 4242); discriminate.
  - intros a Ha. rewrite !Hscore. cbn [Nat.eqb].
    destruct (Nat.eqb a 4242) eqn:Heq; [| reflexivity].
    apply Nat.eqb_eq in Heq. lia.
Qed.

(** C4: the box returned for the selected anchor is the corner form of its
    centre-format values: [x1 = cx - w/2], [y1 = cy - h/2], and the far
    corner [cx + w/2], [cy + h/2] of [src/index.ts] equals the
    specification's [x1 + w], [y1 + h] as a number; the selector of
    [02-output-processing.ts] computes [x1 + w], [y1 + h] literally.  Any
    centre-format values can be met, and nothing is clamped: a box may
    leave the model input on either side. *)
Theorem box_is_converted_centre_to_corner :
  (forall t : Tf.Tensor,
      Tf.shape t = [1; 56; 8400]%nat ->
      exists i p q,
        Spec.isBestAnchor t 8400 i /\
        Index.getBestPrediction t = Returns p /\
        OutputProcessing.getBestPrediction t = Returns q /\
        let cx := Spec.channel t 0 i in
        let cy := Spec.channel t 1 i in
        let w := Spec.channel t 2 i in
        let h := Spec.channel t 3 i in
        box p = (cx - w / 2, cy - h / 2, cx + w / 2, cy + h / 2) /\
        Spec.boxEq (box p) (Spec.cornerBox cx cy w h) /\
        OutputProcessing.box q = Spec.asArray (Spec.cornerBox cx cy w h)) /\
  (forall cx cy w h : Q,
      exists p q,
        Index.getBestPrediction (Sample.uniformOutput cx cy w h) = Returns p /\
        OutputProcessing.getBestPrediction (Sample.uniformOutput cx cy w h)
        = Returns q /\
        Spec.boxEq (box p) (Spec.cornerBox cx cy w h) /\
        OutputProcessing.box q = Spec.asArray (Spec.cornerBox cx cy w h)) /\
  (exists p,
      Index.getBestPrediction (Sample.uniformOutput 10 630 100 100) = Returns p /\
      let '(x1, _, _, y2) := box p in x1 < 0 /\ 640 < y2).
Proof.
  assert (Hcorner : forall cx cy w h,
             Spec.boxEq (cx - w / 2, cy - h / 2, cx + w / 2, cy + h / 2)
                        (Spec.cornerBox cx cy w h)).
  { intros cx cy w h. unfold Spec.boxEq, Spec.cornerBox.
    repeat split; field. }
  split; [| split].
  - intros t Hshape.
    destruct (selectors_return_first_best t 17 8400 Hshape one_anchor_of_8400)
      as (i & Hbest & Hindex & Hvariant).
    exists i. eexists. eexists.
    split; [exact Hbest |]. split; [exact Hindex |]. split; [exact Hvariant |].
    cbn [box OutputProcessing.box]. split; [reflexivity |].
    split; [apply Hcorner | reflexivity].
  - intros cx cy w h.
    destruct (selectors_return_first_best (Sample.uniformOutput cx cy w h)
                17 8400 eq_refl one_anchor_of_8400)
      as (i & Hbest & Hindex & Hvariant).
    eexists. eexists.
    split; [exact Hindex |]. split; [exact Hvariant |].
    cbn [box OutputProcessing.box]. split; [apply Hcorner | reflexivity].
  - destruct (selectors_return_first_best (Sample.uniformOutput 10 630 100 100)
                17 8400 eq_refl one_anchor_of_8400)
      as (i & Hbest & Hindex & Hvariant).
    eexists. split; [exact Hindex |].
    cbn [box]. split; reflexivity.
Qed.

Lemma corner_extent (c s : Q) : (c + s / 2) - (c - s / 2) == s.
Proof. field. Qed.

Lemma corner_degenerate (c s : Q) : c + s / 2 < c - s / 2 <-> s < 0.
Proof.
  assert (Hhalf : s / 2 == s * (1 # 2)) by field.
  rewrite Hhalf. split; intro H; lra.
Qed.

Lemma variant_corner_extent (c s : Q) : (c - s / 2 + s) - (c - s / 2) == s.
Proof. field. Qed.

Lemma variant_corner_degenerate (c s : Q) : c - s / 2 + s < c - s / 2 <-> s < 0.
Proof. split; intro H; lra. Qed.

(** C10: for the selected anchor of any [1, 56, 8400] output, the returned
    corners satisfy [x2 - x1 = w] and [y2 - y1 = h] as numbers, so the box
    is degenerate on an axis ([x2 < x1], [y2 < y1]) exactly when the raw
    width or height is negative; this holds for both selectors. *)
Theorem box_extent_is_raw_size :
  forall t : Tf.Tensor,
    Tf.shape t = [1; 56; 8400]%nat ->
    exists i p q x1 y1 x2 y2 x1' y1' x2' y2',
      Spec.isBestAnchor t 8400 i /\
      Index.getBestPrediction t = Returns p /\
      OutputProcessing.getBestPrediction t = Returns q /\
      box p = (x1, y1, x2, y2) /\
      OutputProcessing.box q = [x1'; y1'; x2'; y2'] /\
      let w := Spec.channel t 2 i in
      let h := Spec.channel t 3 i in
      (x2 - x1 == w /\ y2 - y1 == h /\
       (x2 < x1 <-> w < 0) /\ (y2 < y1 <-> h < 0)) /\
      (x2' - x1' == w /\ y2' - y1' == h /\
       (x2' < x1' <-> w < 0) /\ (y2' < y1' <-> h < 0)).
Proof.
  intros t Hshape.
  destruct (selectors_return_first_best t 17 8400 Hshape one_anchor_of_8400)
    as (i & Hbest & Hindex & Hvariant).
  exists i. do 10 eexists.
  split; [exact Hbest |]. split; [exact Hindex |]. split; [exact Hvariant |].
  cbn [box OutputProcessing.box].
  split; [reflexivity |]. split; [reflexivity |].
  cbv zeta.
  set (cx := Spec.channel t 0 i). set (cy := Spec.channel t 1 i).
  set (w := Spec.channel t 2 i). set (h := Spec.channel t 3 i).
  split; (split; [| split; [| split]]).
  - apply corner_extent.
  - apply corner_extent.
  - apply corner_degenerate.
  - apply corner_degenerate.
  - apply variant_corner_extent.
  - apply variant_corner_extent.
  - apply variant_corner_degenerate.
  - apply variant_corner_degenerate.
Qed.

Lemma box_extent_is_raw_size_witness :
  exists p,
    Index.getBestPrediction (Sample.uniformOutput 100 100 (-4) 6) = Returns p /\
    let '(x1, y1, x2, y2) := box p in
    x2 - x1 == -4 /\ y2 - y1 == 6 /\ x2 < x1 /\ ~ y2 < y1.
Proof.
  destruct (box_extent_is_raw_size (Sample.uniformOutput 100 100 (-4) 6) eq_refl)
    as (i & p & q & x1 & y1 & x2 & y2 & x1' & y1' & x2' & y2'
        & Hbest & Hindex & Hvariant & Hbox & Hbox' & Hextent & Hextent').
  cbv zeta in Hextent.
  change (Spec.channel (Sample.uniformOutput 100 100 (-4) 6) 2 i) with (-4 # 1)
    in Hextent.
  change (Spec.channel (Sample.uniformOutput 100 100 (-4) 6) 3 i) with (6 # 1)
    in Hextent.
  destruct Hextent as (Hw & Hh & Hdegw & Hdegh).
  exists p. split; [exact Hindex |]. rewrite Hbox.
  split; [exact Hw |]. split; [exact Hh |].
  split; [apply Hdegw; reflexivity |].
  intro Hlt. apply Hdegh in Hlt. discriminate Hlt.
Defined.

(** ** Raw outputs of another shape *)

(** With fewer than five channels one of the channel slices reaches past
    the channel axis and the tensor library refuses it. *)
Lemma getBestPrediction_too_few_channels (t : Tf.Tensor) (channels anchors : nat) :
  Tf.shape t = [1; channels; anchors]%nat ->
  (channels < 5)%nat ->
  Index.getBestPrediction t = Throws SliceOverflow /\
  OutputProcessing.getBestPrediction t = Throws SliceOverflow.
Proof.
  intros Hshape Hfew.
  unfold Index.getBestPrediction, OutputProcessing.getBestPrediction.
  rewrite (transpose_021 t _ _ _ Hshape). cbn [bind].
  set (T := {| Tf.shape := [1; anchors; channels]%nat; Tf.elem := _ |}).
  assert (HT : Tf.shape T = [1; anchors; channels]%nat) by reflexivity.
  clearbody T. clear Hshape.
  destruct channels as [| [| [| [| [| c]]]]]; [| | | | | lia]; split.
  all: repeat (rewrite (slice_channel T _ _ _ HT) by lia; cbn [bind]).
  all: rewrite (slice3_overflow T _ _ _ _ _ _ _ _ _ HT);
    [reflexivity | lia | lia | right; right; rewrite sliceSize_given; lia].
Qed.

(** Without any anchor [Math.max()] is [-Infinity], [indexOf] answers
    [-1], and the tensor library refuses [-1] as the begin of a slice. *)
Lemma getBestPrediction_no_anchor (t : Tf.Tensor) (n : nat) :
  Tf.shape t = [1; 5 + n; 0]%nat ->
  Index.getBestPrediction t = Throws NegativeBegin /\
  OutputProcessing.getBestPrediction t = Throws NegativeBegin.
Proof.
  intro Hshape.
  unfold Index.getBestPrediction, OutputProcessing.getBestPrediction.
  rewrite (transpose_021 t _ _ _ Hshape). cbn [bind].
  set (T := {| Tf.shape := [1; 0; 5 + n]%nat; Tf.elem := _ |}).
  assert (HT : Tf.shape T = [1; 0; 5 + n]%nat) by reflexivity.
  rewrite !(slice_channel T _ _ _ HT) by lia.
  rewrite (slice_channels_from T _ _ n _ HT) by lia.
  cbn [bind]. split; reflexivity.
Qed.





(** ** Worked scenario: a 400 x 300 source and a 640 x 640 model input *)

(** C8, as the code has it: the letterbox of a 400 x 300 source has
    [targetSquareSize = 400], no horizontal padding ([xOffset = 0]),
    [topPadding = bottomPadding = 50] ([yOffset = 50]) and
    [scale = 400 / 640 = 0.625]; the raw centre-format box
    [320, 320, 64, 96] becomes the corner box (288, 272, 352, 368) in model
    space and unmaps to (180, 120, 220, 180) in source space.  The point
    (200, 150) is where the box centre (320, 320) lands, not its corner. *)
Theorem scenario_400x300 :
  let padding := Index.letterboxPadding 400 300 in
  let params :=
    Index.transformParams
      (Index.processImageWithLetterboxing Sample.landscape400x300 Sample.model640) in
  Index.targetSquareSize padding = 400%Z /\
  Index.leftPadding padding = 0%Z /\ Index.rightPadding padding = 0%Z /\
  Index.topPadding padding = 50%Z /\ Index.bottomPadding padding = 50%Z /\
  xOffset params == 0 /\ yOffset params == 50 /\
  scale params == 400 / 640 /\ scale params == 0.625 /\
  exists raw,
    Index.getBestPrediction Sample.rawOutput = Returns raw /\
    Spec.boxEq (box raw) (Spec.cornerBox 320 320 64 96) /\
    Spec.boxEq (box raw) (288, 272, 352, 368) /\
    Spec.boxEq (box (Index.scalePrediction raw params)) (180, 120, 220, 180) /\
    Index.transformCoordinate 320 (scale params) (xOffset params) == 200 /\
    Index.transformCoordinate 320 (scale params) (yOffset params) == 150.
Proof.
  cbv zeta.
  repeat (split; [reflexivity |]).
  eexists. split; [vm_compute; reflexivity |].
  repeat split.
Qed.

(** C8, as stated, fails: after corner conversion and unmapping the box of
    the scenario starts at (180, 120), not at (200, 150). *)
Lemma scenario_box_does_not_start_at_200_150 :
  exists raw,
    Index.getBestPrediction Sample.rawOutput = Returns raw /\
    firstn 4 (Sample.anchorRow 0.9) = [320; 320; 64; 96] /\
    let params :=
      Index.transformParams
        (Index.processImageWithLetterboxing
           Sample.landscape400x300 Sample.model640) in
    let '(x1, y1, _, _) := box (Index.scalePrediction raw params) in
    x1 == 180 /\ y1 == 120 /\ ~ x1 == 200 /\ ~ y1 == 150.
Proof.
  eexists. split; [vm_compute; reflexivity |].
  split; [reflexivity |].
  cbv zeta. repeat split; discriminate.
Qed.

(** On an output whose anchors all hold the same values (objectness 0,
    below any positive threshold) the selector still returns, and returns
    what anchor 0 holds. *)
Lemma uniform_output_selects_anchor_0 (cx cy w h : Q) :
  Index.getBestPrediction (Sample.uniformOutput cx cy w h)
  = Returns {| box := (cx - w / 2, cy - h / 2, cx + w / 2, cy + h / 2);
               score := 0;
               keypoints := repeat (0, 0, 0) 17 |}.
Proof.
  destruct (selectors_return_first_best (Sample.uniformOutput cx cy w h)
              17 8400 eq_refl one_anchor_of_8400)
    as (i & _ & Hindex & _).
  rewrite Hindex. reflexivity.
Qed.

(** * Further properties of the code *)

(** ** Unmapping keeps sizes and order *)

(** X1: [scalePrediction] multiplies the width and the height of the box
    by [scale], whatever the offsets; with a non-negative scale a box that
    was well-formed stays well-formed, and with a positive scale it is
    degenerate after unmapping exactly when it was before. *)
Theorem scalePrediction_scales_box_extent :
  forall (x1 y1 x2 y2 s : Q) (kps : list Keypoint) (params : TransformParams),
    let unmapped :=
      Index.scalePrediction
        {| box := (x1, y1, x2, y2); score := s; keypoints := kps |} params in
    let '(x1', y1', x2', y2') := box unmapped in
    x2' - x1' == (x2 - x1) * scale params /\
    y2' - y1' == (y2 - y1) * scale params /\
    (0 <= scale params -> x1 <= x2 -> x1' <= x2') /\
    (0 <= scale params -> y1 <= y2 -> y1' <= y2') /\
    (0 < scale params -> (x2' < x1' <-> x2 < x1)) /\
    (0 < scale params -> (y2' < y1' <-> y2 < y1)).
Proof.
  intros x1 y1 x2 y2 s kps params. cbv zeta.
  unfold Index.scalePrediction, Index.transformCoordinate. cbn [box].
  assert (Hle : forall a b o, 0 <= scale params -> a <= b ->
                              a * scale params - o <= b * scale params - o).
  { intros a b o Hs Hab.
    pose proof (Qmult_le_compat_r a b (scale params) Hab Hs). lra. }
  assert (Hlt : forall a b o, 0 < scale params ->
                  (b * scale params - o < a * scale params - o <-> b < a)).
  { intros a b o Hs. rewrite <- (Qmult_lt_r b a (scale params) Hs).
    split; intro H; lra. }
  split; [ring |]. split; [ring |].
  split; [intros; now apply Hle |]. split; [intros; now apply Hle |].
  split; intro Hs; apply Hlt; exact Hs.
Qed.

(** ** Where unmapped coordinates can fall *)

Lemma inject_Z_le (a b : Z) : (a <= b)%Z -> inject_Z a <= inject_Z b.
Proof. intro H. now rewrite <- Zle_Qle. Qed.

(** The image of [0, modelWidth] under [m -> m * scale] is the side of the
    square. *)
Lemma scaled_model_coordinate (target modelWidth : Z) (m : Q) :
  (0 < target)%Z -> (0 < modelWidth)%Z ->
  0 <= m <= inject_Z modelWidth ->
  0 <= m * (inject_Z target / inject_Z modelWidth) <= inject_Z target.
Proof.
  intros Ht Hm [Hlo Hhi].
  assert (Hmw : 0 < inject_Z modelWidth) by (rewrite <- (Zlt_Qlt 0); exact Hm).
  assert (Htq : 0 < inject_Z target) by (rewrite <- (Zlt_Qlt 0); exact Ht).
  assert (Hs : 0 <= inject_Z target / inject_Z modelWidth).
  { apply Qle_shift_div_l; [exact Hmw | lra]. }
  split.
  - apply Qmult_le_0_compat; assumption.
  - assert (Hfull : inject_Z modelWidth * (inject_Z target / inject_Z modelWidth)
                    == inject_Z target) by (field; lra).
    rewrite <- Hfull at 2. now apply Qmult_le_compat_r.
Qed.

(** X2: for a source of positive size and a model input of positive width,
    a model-space coordinate inside [0, modelWidth] unmaps to a source
    coordinate that leaves the source frame by at most the padding of its
    axis: x lands in [-leftPadding, width + rightPadding] and y in
    [-topPadding, height + bottomPadding]. *)
Theorem unmapped_coordinate_stays_in_padded_square :
  forall (source : Element.t) (model : GraphModel)
         (batch modelHeight modelWidth channels : Z) (m : Q),
    inputShape model = [batch; modelHeight; modelWidth; channels] ->
    (0 < Element.width source)%Z ->
    (0 < Element.height source)%Z ->
    (0 < modelWidth)%Z ->
    0 <= m <= inject_Z modelWidth ->
    let p := Index.letterboxPadding (Element.width source) (Element.height source) in
    let params :=
      Index.transformParams (Index.processImageWithLetterboxing source model) in
    let x := Index.transformCoordinate m (scale params) (xOffset params) in
    let y := Index.transformCoordinate m (scale params) (yOffset params) in
    - inject_Z (Index.leftPadding p) <= x /\
    x <= inject_Z (Element.width source) + inject_Z (Index.rightPadding p) /\
    - inject_Z (Index.topPadding p) <= y /\
    y <= inject_Z (Element.height source) + inject_Z (Index.bottomPadding p).
Proof.
  intros source model batch modelHeight modelWidth channels m
         Hshape Hw Hh Hm Hrange p params x y.
  pose proof (scaled_model_coordinate
                (Z.max (Element.width source) (Element.height source))
                modelWidth m ltac:(lia) Hm Hrange) as [Hlo Hhi].
  assert (Hsum : forall a b c, inject_Z (a + b + c) == inject_Z a + inject_Z b + inject_Z c)
    by (intros; now rewrite !inject_Z_plus).
  assert (Hwsum : inject_Z (Z.max (Element.width source) (Element.height source))
                  == inject_Z (Index.leftPadding p) + inject_Z (Element.width source)
                     + inject_Z (Index.rightPadding p)).
  { rewrite <- Hsum. apply inject_Z_injective.
    unfold p. cbn [Index.letterboxPadding Index.leftPadding Index.rightPadding]. lia. }
  assert (Hhsum : inject_Z (Z.max (Element.width source) (Element.height source))
                  == inject_Z (Index.topPadding p) + inject_Z (Element.height source)
                     + inject_Z (Index.bottomPadding p)).
  { rewrite <- Hsum. apply inject_Z_injective.
    unfold p. cbn [Index.letterboxPadding Index.topPadding Index.bottomPadding]. lia. }
  unfold x, y, params, Index.transformCoordinate, Index.processImageWithLetterboxing.
  cbn [Index.transformParams scale xOffset yOffset]. rewrite Hshape. cbn [nth].
  fold p. change (Index.targetSquareSize p)
    with (Z.max (Element.width source) (Element.height source)).
  repeat split; lra.
Qed.

Lemma unmapped_coordinate_stays_in_padded_square_witness :
  let params :=
    Index.transformParams
      (Index.processImageWithLetterboxing Sample.oddDifference Sample.model640) in
  - (0 # 1) <= Index.transformCoordinate 640 (scale params) (xOffset params) /\
  Index.transformCoordinate 640 (scale params) (xOffset params) <= 251 + 0 /\
  - (75 # 1) <= Index.transformCoordinate 640 (scale params) (yOffset params) /\
  Index.transformCoordinate 640 (scale params) (yOffset params) <= 100 + 76.
Proof.
  apply (unmapped_coordinate_stays_in_padded_square
           Sample.oddDifference Sample.model640 1 640 640 3 640);
    [reflexivity | reflexivity | reflexivity | reflexivity | split; discriminate].
Defined.

(** ** Which axis is padded *)

(** X3: the letterbox pads one axis at most: the longer side of the source
    gets no padding (so its offset is 0), a square source gets none at all,
    and then the scale is [width / modelWidth]. *)
Theorem letterbox_pads_one_axis :
  forall (source : Element.t) (model : GraphModel),
    let w := Element.width source in
    let h := Element.height source in
    let p := Index.letterboxPadding w h in
    let params :=
      Index.transformParams (Index.processImageWithLetterboxing source model) in
    ((h <= w)%Z ->
     Index.leftPadding p = 0%Z /\ Index.rightPadding p = 0%Z /\
     xOffset params = 0) /\
    ((w <= h)%Z ->
     Index.topPadding p = 0%Z /\ Index.bottomPadding p = 0%Z /\
     yOffset params = 0) /\
    (w = h ->
     scale params = inject_Z w / inject_Z (nth 2 (inputShape model) 0%Z)) /\
    (Index.leftPadding p = 0%Z \/ Index.topPadding p = 0%Z).
Proof.
  intros source model w h p params.
  assert (Hleft : (h <= w)%Z ->
                  Index.leftPadding p = 0%Z /\ Index.rightPadding p = 0%Z).
  { intro Hwide. unfold p.
    cbn [Index.letterboxPadding Index.leftPadding Index.rightPadding].
    rewrite floorHalf_div, Z.max_l by exact Hwide.
    rewrite Z.sub_diag. split; reflexivity. }
  assert (Htop : (w <= h)%Z ->
                 Index.topPadding p = 0%Z /\ Index.bottomPadding p = 0%Z).
  { intro Htall. unfold p.
    cbn [Index.letterboxPadding Index.topPadding Index.bottomPadding].
    rewrite floorHalf_div, Z.max_r by exact Htall.
    rewrite Z.sub_diag. split; reflexivity. }
  split; [| split; [| split]].
  - intro Hwide. destruct (Hleft Hwide) as [Hl Hr].
    split; [exact Hl |]. split; [exact Hr |].
    unfold params, Index.processImageWithLetterboxing.
    cbn [Index.transformParams xOffset]. fold w h p. now rewrite Hl.
  - intro Htall. destruct (Htop Htall) as [Ht Hb].
    split; [exact Ht |]. split; [exact Hb |].
    unfold params, Index.processImageWithLetterboxing.
    cbn [Index.transformParams yOffset]. fold w h p. now rewrite Ht.
  - intro Hsquare.
    unfold params, Index.processImageWithLetterboxing.
    cbn [Index.transformParams scale Index.letterboxPadding Index.targetSquareSize].
    fold w h. rewrite <- Hsquare, Z.max_id. reflexivity.
  - destruct (Z.le_ge_cases h w) as [Hwide | Htall].
    + left. now apply Hleft.
    + right. now apply Htop.
Qed.

(** ** What the network is shown *)

Lemma padIndex_inside (h w channels top bottom left right y x d : nat) :
  (y < h)%nat -> (x < w)%nat -> (d < channels)%nat ->
  Tf.padIndex [h; w; channels] [(top, bottom); (left, right); (0, 0)]%nat
              [top + y; left + x; d]%nat
  = Some [y; x; d].
Proof.
  intros Hy Hx Hd. cbn [Tf.padIndex].
  replace (top <=? top + y)%nat with true by (symmetry; apply Nat.leb_le; lia).
  replace (top + y <? top + h)%nat with true by (symmetry; apply Nat.ltb_lt; lia).
  replace (left <=? left + x)%nat with true by (symmetry; apply Nat.leb_le; lia).
  replace (left + x <? left + w)%nat with true by (symmetry; apply Nat.ltb_lt; lia).
  replace (d <? 0 + channels)%nat with true by (symmetry; apply Nat.ltb_lt; lia).
  cbn [andb Nat.leb option_map].
  repeat f_equal; lia.
Qed.

Lemma padIndex_outside (h w channels top bottom left right y x d : nat) :
  (y < top \/ top + h <= y \/ x < left \/ left + w <= x)%nat ->
  Tf.padIndex [h; w; channels] [(top, bottom); (left, right); (0, 0)]%nat
              [y; x; d]
  = None.
Proof.
  intro Hout. cbn [Tf.padIndex].
  destruct ((top <=? y)%nat && (y <? top + h)%nat) eqn:Hrow; [| reflexivity].
  destruct ((left <=? x)%nat && (x <? left + w)%nat) eqn:Hcol; [| reflexivity].
  apply andb_prop in Hrow, Hcol.
  destruct Hrow as [H1 H2]. destruct Hcol as [H3 H4].
  apply Nat.leb_le in H1, H3. apply Nat.ltb_lt in H2, H4. lia.
Qed.

(** X4: Step 2 of [processImageWithLetterboxing] pads the pixel tensor,
    of shape [rows, columns, channels], by the paddings computed from the
    width and height of the element: the result has shape
    [top + rows + bottom, left + columns + right, channels], the normalised
    source pixels sit [topPadding] rows down and [leftPadding] columns
    right, and every position outside them is 0 (black).  When the pixel
    tensor has the element's height and width the result is the square of
    side [max(width, height)]. *)
Theorem letterboxed_image_layout :
  forall (source : Element.t) (rows columns channels : nat),
    let w := Element.width source in
    let h := Element.height source in
    let p := Index.letterboxPadding w h in
    let top := Z.to_nat (Index.topPadding p) in
    let bottom := Z.to_nat (Index.bottomPadding p) in
    let left := Z.to_nat (Index.leftPadding p) in
    let right := Z.to_nat (Index.rightPadding p) in
    Tf.shape (Element.fromPixels source) = [rows; columns; channels] ->
    Tf.shape (Index.letterboxedImageOf source)
    = [top + rows + bottom; left + columns + right; channels]%nat /\
    (forall y x d,
        (y < rows)%nat -> (x < columns)%nat -> (d < channels)%nat ->
        Tf.elem (Index.letterboxedImageOf source) [top + y; left + x; d]%nat
        = Tf.elem (Element.fromPixels source) [y; x; d] / 255) /\
    (forall y x d,
        (y < top \/ top + rows <= y \/ x < left \/ left + columns <= x)%nat ->
        Tf.elem (Index.letterboxedImageOf source) [y; x; d] = 0) /\
    (rows = Z.to_nat h -> columns = Z.to_nat w -> (0 <= w)%Z -> (0 <= h)%Z ->
     Tf.shape (Index.letterboxedImageOf source)
     = [Z.to_nat (Z.max w h); Z.to_nat (Z.max w h); channels]).
Proof.
  intros source rows columns channels w h p top bottom left right Hshape.
  split; [| split; [| split]].
  - unfold Index.letterboxedImageOf. fold w h p top bottom left right.
    cbn [Tf.shape Tf.pad Tf.div]. rewrite Hshape. cbn [Tf.padShape].
    now rewrite Nat.add_0_r.
  - intros y x d Hy Hx Hd.
    unfold Index.letterboxedImageOf. fold w h p top bottom left right.
    cbn [Tf.elem Tf.pad Tf.shape Tf.div]. rewrite Hshape.
    now rewrite padIndex_inside.
  - intros y x d Hout.
    unfold Index.letterboxedImageOf. fold w h p top bottom left right.
    cbn [Tf.elem Tf.pad Tf.shape Tf.div]. rewrite Hshape.
    now rewrite padIndex_outside.
  - intros Hrows Hcolumns Hw Hh. subst rows columns.
    now apply letterboxedImage_is_square.
Qed.

Lemma letterboxed_image_layout_witness :
  Tf.shape (Index.letterboxedImageOf Scene.gradient) = [1 + 4 + 1; 0 + 6 + 0; 3]%nat /\
  Tf.elem (Index.letterboxedImageOf Scene.gradient) [1 + 2; 0 + 3; 1]%nat
  = Tf.elem (Element.fromPixels Scene.gradient) [2; 3; 1]%nat / 255 /\
  Tf.elem (Index.letterboxedImageOf Scene.gradient) [0; 3; 1]%nat = 0 /\
  Tf.elem (Index.letterboxedImageOf Scene.gradient) [5; 3; 1]%nat = 0.
Proof.
  destruct (letterboxed_image_layout Scene.gradient 4 6 3 eq_refl)
    as (Hshape & Hinside & Houtside & _).
  split; [exact Hshape |].
  split; [apply (Hinside 2 3 1)%nat; cbn; lia |].
  split; [apply (Houtside 0 3 1)%nat; cbn; lia |].
  apply (Houtside 5 3 1)%nat; cbn; lia.
Defined.

(** X5: for a source whose pixel tensor has the element's height and
    width, and a square model input of positive width: the tensor shown to
    the network has shape [1, modelHeight, modelWidth, channels], and what
    it holds at row [r] and column [c] is the normalised source pixel found
    where [transformCoordinate] sends [(c, r)], whenever that place is a
    pixel of the source. *)
Theorem network_input_shows_the_unmapped_pixel :
  forall (source : Element.t) (model : GraphModel) (channels : nat)
         (batch modelHeight modelWidth depth : Z) (r c y x d : nat),
    inputShape model = [batch; modelHeight; modelWidth; depth] ->
    Tf.shape (Element.fromPixels source)
    = [Z.to_nat (Element.height source); Z.to_nat (Element.width source); channels] ->
    (0 < modelWidth)%Z -> modelHeight = modelWidth ->
    (y < Z.to_nat (Element.height source))%nat ->
    (x < Z.to_nat (Element.width source))%nat ->
    (d < channels)%nat ->
    let result := Index.processImageWithLetterboxing source model in
    let params := Index.transformParams result in
    Index.transformCoordinate (inject_Z (Z.of_nat c)) (scale params) (xOffset params)
    == inject_Z (Z.of_nat x) ->
    Index.transformCoordinate (inject_Z (Z.of_nat r)) (scale params) (yOffset params)
    == inject_Z (Z.of_nat y) ->
    Tf.shape (Index.processedImage result)
    = [1%nat; Z.to_nat modelHeight; Z.to_nat modelWidth; channels] /\
    Tf.elem (Index.processedImage result) [0; r; c; d]%nat
    == Tf.elem (Element.fromPixels source) [y; x; d] / 255.
Proof.
  intros source model channels batch modelHeight modelWidth depth r c y x d
         Hmodel Hshape Hmw Hsq Hy Hx Hd result params Hcol Hrow.
  subst modelHeight.
  split; [now apply (processedImage_shape source model channels batch _ _ depth) |].
  set (w := Element.width source) in *. set (h := Element.height source) in *.
  set (p := Index.letterboxPadding w h).
  assert (Hw : (0 <= w)%Z) by lia. assert (Hh : (0 <= h)%Z) by lia.
  pose proof (letterboxedImage_is_square source channels Hshape Hw Hh) as Hsquare.
  pose proof (letterbox_nonnegative w h) as (Hl & Hr & Ht & Hb).
  fold p in Hl, Hr, Ht, Hb. fold w h in Hsquare.
  assert (Hsumw : (Index.leftPadding p + w + Index.rightPadding p = Z.max w h)%Z)
    by (unfold p; cbn [Index.letterboxPadding Index.leftPadding Index.rightPadding]; lia).
  assert (Hsumh : (Index.topPadding p + h + Index.bottomPadding p = Z.max w h)%Z)
    by (unfold p; cbn [Index.letterboxPadding Index.topPadding Index.bottomPadding]; lia).
  unfold params, result, Index.processImageWithLetterboxing,
    Index.transformCoordinate in Hcol, Hrow.
  cbn [Index.transformParams scale xOffset yOffset] in Hcol, Hrow.
  rewrite Hmodel in Hcol, Hrow. cbn [nth] in Hcol, Hrow.
  fold w h p in Hcol, Hrow.
  change (Index.targetSquareSize p) with (Z.max w h) in Hcol, Hrow.
  unfold result, Index.processImageWithLetterboxing. rewrite Hmodel.
  cbn [Index.processedImage Tf.expandDims0 Tf.elem tl nth].
  rewrite (resizeBilinear_samples (Index.letterboxedImageOf source)
             (Z.to_nat (Z.max w h)) (Z.to_nat (Z.max w h)) channels
             (Z.to_nat modelWidth) (Z.to_nat modelWidth) r c d
             (Z.to_nat (Index.topPadding p) + y)
             (Z.to_nat (Index.leftPadding p) + x) Hsquare).
  - pose proof (letterboxedImage_places_pixels source channels y x d
                  Hshape Hy Hx Hd) as Hinside.
    fold w h p in Hinside. now rewrite Hinside.
  - rewrite !Z2Nat.id by lia. rewrite Nat2Z.inj_add, Z2Nat.id, inject_Z_plus by lia.
    lra.
  - rewrite !Z2Nat.id by lia. rewrite Nat2Z.inj_add, Z2Nat.id, inject_Z_plus by lia.
    lra.
  - lia.
  - lia.
Qed.

Lemma network_input_shows_the_unmapped_pixel_witness :
  Tf.shape (Index.processedImage
              (Index.processImageWithLetterboxing Scene.gradient Scene.model8))
  = [1%nat; Z.to_nat 8; Z.to_nat 8; 3%nat] /\
  Tf.elem (Index.processedImage
             (Index.processImageWithLetterboxing Scene.gradient Scene.model8))
          [0; 4; 4; 1]%nat
  == Tf.elem (Element.fromPixels Scene.gradient) [2; 3; 1]%nat / 255.
Proof.
  apply (network_input_shows_the_unmapped_pixel
           Scene.gradient Scene.model8 3 1 8 8 3 4 4 2 3 1);
    try reflexivity; cbn; lia.
Defined.

(** ** The keypoint grouping loop *)

Lemma formatKeypoints_flatten (kps : list Keypoint) :
  Index.formatKeypoints (flat_map (fun '(x, y, c) => [x; y; c]) kps) = Returns kps.
Proof.
  induction kps as [| [[x y] c] kps IH]; [reflexivity |].
  cbn [flat_map app Index.formatKeypoints]. now rewrite IH.
Qed.

Lemma formatKeypoints_cases (n : nat) :
  forall data : list Q,
    (length data <= n)%nat ->
    match Index.formatKeypoints data with
    | Returns kps =>
        flat_map (fun '(x, y, c) => [x; y; c]) kps = data /\
        length data = (3 * length kps)%nat
    | Throws _ => False
    | Undefined => (length data mod 3 <> 0)%nat
    end.
Proof.
  induction n as [| n IH]; intros data Hlen.
  - destruct data; [cbn; split; reflexivity | cbn in Hlen; lia].
  - destruct data as [| x [| y [| c rest]]].
    + cbn. split; reflexivity.
    + cbn. lia.
    + cbn. lia.
    + cbn [Index.formatKeypoints].
      specialize (IH rest ltac:(cbn in Hlen; lia)).
      destruct (Index.formatKeypoints rest) as [kps | e |]; cbn [bind].
      * destruct IH as [Hflat Hcount]. cbn [flat_map app length].
        rewrite Hflat. split; [reflexivity | lia].
      * exact IH.
      * cbn [length].
        replace (S (S (S (length rest)))) with (length rest + 1 * 3)%nat by lia.
        now rewrite Nat.Div0.mod_add.
Qed.

(** X6: the loop that groups the flat keypoint data never throws; it
    returns exactly when the number of values is a multiple of 3, and then
    the triplets, laid end to end, are the data again (conversely any list
    of triplets is what the loop makes of its flattening). *)
Theorem formatKeypoints_round_trip :
  forall data : list Q,
    (forall kps : list Keypoint,
        Index.formatKeypoints (flat_map (fun '(x, y, c) => [x; y; c]) kps)
        = Returns kps) /\
    (forall kps,
        Index.formatKeypoints data = Returns kps ->
        flat_map (fun '(x, y, c) => [x; y; c]) kps = data /\
        length data = (3 * length kps)%nat) /\
    ((exists kps, Index.formatKeypoints data = Returns kps) <->
     (length data mod 3 = 0)%nat) /\
    (Index.formatKeypoints data = Undefined <-> (length data mod 3 <> 0)%nat) /\
    (forall e, Index.formatKeypoints data <> Throws e).
Proof.
  intro data.
  pose proof (formatKeypoints_cases (length data) data (Nat.le_refl _)) as Hcases.
  split; [apply formatKeypoints_flatten |].
  destruct (Index.formatKeypoints data) as [kps | e |].
  - destruct Hcases as [Hflat Hcount].
    assert (Hmod : (length data mod 3 = 0)%nat).
    { rewrite Hcount, Nat.mul_comm. apply Nat.Div0.mod_mul. }
    split; [intros kps' [= <-]; now split |].
    split; [split; [intros _; exact Hmod | intros _; now exists kps] |].
    split; [split; [discriminate | intro H; contradiction] |].
    intros e; discriminate.
  - destruct Hcases.
  - split; [discriminate |].
    split; [split; [intros [kps [=]] | intro H; contradiction] |].
    split; [split; [intros _; exact Hcases | reflexivity] |].
    intros e; discriminate.
Qed.

(** ** The two selectors, on any tensor *)

Lemma transpose_021_outcome (t : Tf.Tensor) :
  Tf.transpose t [0; 2; 1]%nat = Throws RankMismatch \/
  exists d0 d1 d2,
    Tf.shape t = [d0; d1; d2] /\
    Tf.transpose t [0; 2; 1]%nat
    = Returns {| Tf.shape := [d0; d2; d1];
                 Tf.elem := fun idx =>
                   Tf.elem t [nth 0 idx 0; nth 2 idx 0; nth 1 idx 0]%nat |}.
Proof.
  destruct (Tf.shape t) as [| d0 [| d1 [| d2 [| d3 rest]]]] eqn:Hshape.
  1, 2, 3, 5: left; unfold Tf.transpose; rewrite Hshape; reflexivity.
  right. exists d0, d1, d2. split; [reflexivity |].
  now apply transpose_021.
Qed.

(** One channel of every anchor, whatever the batch size. *)
Lemma slice_channel_any_batch (T : Tf.Tensor) (d0 anchors channels : nat) (c : Z) :
  Tf.shape T = [d0; anchors; channels] ->
  (0 <= c < Z.of_nat channels)%Z ->
  Tf.slice T [0; 0; c]%Z [-1; -1; 1]%Z
  = Returns {| Tf.shape := [d0; anchors; 1]%nat;
               Tf.elem := fun idx => Tf.elem T (Tf.offsetIndex [0; 0; c]%Z idx) |}.
Proof.
  intros Hshape Hc.
  rewrite (slice3_returns T _ _ _ _ _ _ _ _ _ Hshape);
    rewrite ?sliceSize_rest, ?sliceSize_given; try lia.
  rewrite !Z.sub_0_r, !Nat2Z.id. reflexivity.
Qed.

Lemma slice_channels_from_any_batch (T : Tf.Tensor) (d0 anchors channels n : nat)
      (c : Z) :
  Tf.shape T = [d0; anchors; channels] ->
  (0 <= c)%Z -> (Z.of_nat channels - c = Z.of_nat n)%Z ->
  Tf.slice T [0; 0; c]%Z [-1; -1; -1]%Z
  = Returns {| Tf.shape := [d0; anchors; n]%nat;
               Tf.elem := fun idx => Tf.elem T (Tf.offsetIndex [0; 0; c]%Z idx) |}.
Proof.
  intros Hshape Hc Hn.
  rewrite (slice3_returns T _ _ _ _ _ _ _ _ _ Hshape);
    rewrite ?sliceSize_rest; try lia.
  rewrite Hn, !Z.sub_0_r, !Nat2Z.id. reflexivity.
Qed.

Lemma indexOfFrom_lower_bound (arr : list Q) (x : Q) :
  forall start : Z, (0 <= start)%Z -> (-1 <= Js.indexOfFrom arr x start)%Z.
Proof.
  induction arr as [| y rest IH]; intros start Hstart; cbn [Js.indexOfFrom]; [lia |].
  destruct (Qeq_bool y x); [lia | apply IH; lia].
Qed.

Lemma indexOf_lower_bound (arr : list Q) (x : option Q) :
  (-1 <= Js.indexOf arr x)%Z.
Proof.
  destruct x as [m |]; cbn [Js.indexOf]; [| lia].
  now apply indexOfFrom_lower_bound.
Qed.

(** A slice taking one anchor succeeds or fails by the shape alone. *)
Lemma slice_anchor_outcome (d0 anchors n : nat) (index size : Z) :
  (-1 <= index)%Z -> size = 1%Z \/ size = (-1)%Z ->
  (exists e, forall X : Tf.Tensor,
        Tf.shape X = [d0; anchors; n] ->
        Tf.slice X [0; index; 0]%Z [1; 1; size]%Z = Throws e) \/
  (forall X : Tf.Tensor,
      Tf.shape X = [d0; anchors; n] ->
      Tf.slice X [0; index; 0]%Z [1; 1; size]%Z
      = Returns {| Tf.shape := [1%nat; 1%nat; Z.to_nat (Tf.sliceSize n 0 size)];
                   Tf.elem := fun idx =>
                     Tf.elem X (Tf.offsetIndex [0; index; 0]%Z idx) |}).
Proof.
  intros Hindex Hsize.
  destruct (Z.eq_dec index (-1)) as [-> | Hne].
  { left. exists NegativeBegin. intros X Hshape.
    unfold Tf.slice. rewrite Hshape. reflexivity. }
  assert (Hs : (-1 <= size)%Z) by (destruct Hsize; lia).
  destruct (Z_le_gt_dec (0 + Tf.sliceSize d0 0 1) (Z.of_nat d0)) as [H0 | H0];
    [| left; exists SliceOverflow; intros X Hshape;
       apply (slice3_overflow X _ _ _ _ _ _ _ _ _ Hshape); lia].
  destruct (Z_le_gt_dec (index + Tf.sliceSize anchors index 1) (Z.of_nat anchors))
    as [H1 | H1];
    [| left; exists SliceOverflow; intros X Hshape;
       apply (slice3_overflow X _ _ _ _ _ _ _ _ _ Hshape); lia].
  destruct (Z_le_gt_dec (0 + Tf.sliceSize n 0 size) (Z.of_nat n)) as [H2 | H2];
    [| left; exists SliceOverflow; intros X Hshape;
       apply (slice3_overflow X _ _ _ _ _ _ _ _ _ Hshape); lia].
  right. intros X Hshape.
  rewrite (slice3_returns X _ _ _ _ _ _ _ _ _ Hshape); try lia.
  rewrite !(sliceSize_given _ _ 1) by lia. reflexivity.
Qed.

(** Settle the slice of channel [c]: returned when the channel exists,
    refused otherwise. *)
Ltac settle_channel T HT c :=
  first
    [ rewrite !(slice_channel_any_batch T _ _ _ c HT) by lia
    | rewrite !(slice3_overflow T _ _ _ 0%Z 0%Z c (-1)%Z (-1)%Z 1%Z HT)
        by (first [lia | right; right; rewrite sliceSize_given; lia]) ].

(** X7: on every tensor the selector of [src/index.ts] and the one of
    [src/02-output-processing.ts] end alike: both throw the same error,
    or both return with undefined components, or both return the same
    score, the same keypoints and boxes whose corners are equal as
    numbers (the near corner literally). *)
Theorem selectors_agree_on_every_tensor :
  forall t : Tf.Tensor,
    match Index.getBestPrediction t, OutputProcessing.getBestPrediction t with
    | Returns p, Returns q =>
        score p = OutputProcessing.score q /\
        keypoints p = OutputProcessing.keypoints q /\
        exists x1 y1 x2 y2 x2' y2',
          box p = (x1, y1, x2, y2) /\
          OutputProcessing.box q = [x1; y1; x2'; y2'] /\
          x2 == x2' /\ y2 == y2'
    | Throws e, Throws e' => e = e'
    | Undefined, Undefined => True
    | _, _ => False
    end.
Proof.
  intro t.
  unfold Index.getBestPrediction, OutputProcessing.getBestPrediction.
  destruct (transpose_021_outcome t) as [Hrank | (d0 & d1 & d2 & Hshape & Htr)].
  { rewrite Hrank. reflexivity. }
  rewrite Htr. cbn [bind].
  set (T := {| Tf.shape := [d0; d2; d1]; Tf.elem := _ |}).
  assert (HT : Tf.shape T = [d0; d2; d1]) by reflexivity.
  clearbody T. clear Htr Hshape t.
  destruct d1 as [| [| [| [| [| n]]]]].
  1, 2, 3, 4, 5:
    settle_channel T HT 0%Z; settle_channel T HT 1%Z; settle_channel T HT 2%Z;
    settle_channel T HT 3%Z; settle_channel T HT 4%Z; reflexivity.
  rewrite !(slice_channel_any_batch T _ _ _ _ HT) by lia.
  rewrite (slice_channels_from_any_batch T _ _ _ n _ HT) by lia.
  cbn [bind].
  set (scores := Tf.dataSync _).
  set (index := Js.indexOf scores (Js.mathMax scores)).
  pose proof (indexOf_lower_bound scores (Js.mathMax scores)) as Hindex.
  fold index in Hindex.
  destruct (slice_anchor_outcome d0 d2 1 index 1 Hindex (or_introl eq_refl))
    as [(e & Hbox) | Hbox].
  { rewrite !Hbox by reflexivity. reflexivity. }
  rewrite !Hbox by reflexivity. cbn [bind].
  change (Z.to_nat (Tf.sliceSize 1 0 1)) with 1%nat.
  destruct (slice_anchor_outcome d0 d2 n index (-1) Hindex (or_intror eq_refl))
    as [(e & Hkp) | Hkp].
  { rewrite !Hkp by reflexivity. reflexivity. }
  rewrite !Hkp by reflexivity. cbn [bind].
  destruct (Index.formatKeypoints _) as [kps | e |]; cbn [bind];
    [| reflexivity | exact I].
  rewrite !(dataSync_squeeze_last _ 4) by reflexivity.
  cbn [map seq Index.asBoundingBox bind].
  destruct (Js.get scores index) as [best |]; cbn [Index.defined bind]; [| exact I].
  cbn [score keypoints box OutputProcessing.score OutputProcessing.keypoints
       OutputProcessing.box].
  split; [reflexivity |]. split; [reflexivity |].
  do 6 eexists. split; [reflexivity |].
  cbn [Tf.elem Tf.concat Tf.concatElem Tf.shape Tf.setAxis Tf.sub Tf.add Tf.div
       Tf.offsetIndex nth Nat.ltb Nat.leb Nat.sub].
  split; [reflexivity |].
  split; field.
Qed.

(** ** What the selection depends on *)

Lemma isBestAnchor_same_scores (t t' : Tf.Tensor) (anchors i : nat) :
  (forall a, (a < anchors)%nat -> Spec.channel t 4 a == Spec.channel t' 4 a) ->
  Spec.isBestAnchor t anchors i -> Spec.isBestAnchor t' anchors i.
Proof.
  intros Hscores (Hi & Hmax & Hfirst). repeat split.
  - exact Hi.
  - intros a Ha. rewrite <- (Hscores a Ha), <- (Hscores i Hi). now apply Hmax.
  - intros a Ha. rewrite <- (Hscores a ltac:(lia)), <- (Hscores i Hi).
    now apply Hfirst.
Qed.

(** X8: the detection returned depends on the objectness channel and on
    the values of the selected anchor only: two raw outputs of one shape
    with equal scores everywhere and equal values at the best anchor give
    the same detection, however their other anchors differ (no other
    anchor's box or keypoints take part). *)
Theorem selection_ignores_other_anchors :
  forall (t t' : Tf.Tensor) (k anchors i : nat),
    Tf.shape t = [1; 5 + 3 * k; anchors]%nat ->
    Tf.shape t' = [1; 5 + 3 * k; anchors]%nat ->
    Spec.isBestAnchor t anchors i ->
    (forall a, (a < anchors)%nat -> Spec.channel t 4 a == Spec.channel t' 4 a) ->
    (forall c, (c < 5 + 3 * k)%nat -> Spec.channel t c i = Spec.channel t' c i) ->
    Index.getBestPrediction t = Index.getBestPrediction t' /\
    OutputProcessing.getBestPrediction t = OutputProcessing.getBestPrediction t'.
Proof.
  intros t t' k anchors i Hshape Hshape' Hbest Hscores Hrow.
  assert (Hanchors : (1 <= anchors)%nat) by (destruct Hbest; lia).
  destruct (selectors_return_first_best t k anchors Hshape Hanchors)
    as (j & Hj & Hindex & Hvariant).
  destruct (selectors_return_first_best t' k anchors Hshape' Hanchors)
    as (j' & Hj' & Hindex' & Hvariant').
  assert (j = i) by (eapply isBestAnchor_unique; eassumption). subst j.
  assert (j' = i).
  { eapply isBestAnchor_unique; [exact Hj' |].
    now apply (isBestAnchor_same_scores t t'). }
  subst j'.
  assert (Hkps : Spec.keypointsAt t k i = Spec.keypointsAt t' k i).
  { unfold Spec.keypointsAt. apply map_ext_in. intros j Hin.
    apply in_seq in Hin. rewrite !Hrow by lia. reflexivity. }
  rewrite Hindex, Hindex', Hvariant, Hvariant', Hkps, !Hrow by lia.
  split; reflexivity.
Qed.

Lemma selection_ignores_other_anchors_witness :
  Index.getBestPrediction Sample.rawOutput
  = Index.getBestPrediction Scene.crowdedOutput /\
  OutputProcessing.getBestPrediction Sample.rawOutput
  = OutputProcessing.getBestPrediction Scene.crowdedOutput.
Proof.
  apply (selection_ignores_other_anchors
           Sample.rawOutput Scene.crowdedOutput 17 8400 4242).
  - reflexivity.
  - reflexivity.
  - exact sample_best_anchor.
  - intros a _. unfold Spec.channel, Sample.rawOutput, Scene.crowdedOutput.
    cbn [Tf.elem]. destruct (Nat.eqb a 4242); reflexivity.
  - intros c _. reflexivity.
Defined.

(** ** One frame of the pipeline *)

(** What both pipelines do once the selector has returned: unmap and
    render. *)
Lemma pipeline_after_selection (predict : Tf.Tensor -> Tf.Tensor)
      (canvas : Canvas.t) (source : Element.t) (model : GraphModel)
      (best : Prediction) :
  let result := Index.processImageWithLetterboxing source model in
  let params := Index.transformParams result in
  let unmapped := Index.scalePrediction best params in
  let props :=
    {| RenderPredictionProps.canvas := canvas;
       RenderPredictionProps.source := source;
       RenderPredictionProps.box := box unmapped;
       RenderPredictionProps.score := score unmapped;
       RenderPredictionProps.keypoints := keypoints unmapped;
       RenderPredictionProps.width := originalWidth params;
       RenderPredictionProps.height := originalHeight params |} in
  Index.getBestPrediction (predict (Index.processedImage result)) = Returns best ->
  Pipeline.processImage predict canvas source model
  = Returns (Index.renderPrediction props) /\
  Pipeline.main predict canvas source model
  = Returns (LetterboxOutput.renderPrediction props).
Proof.
  intros result params unmapped props Hbest.
  unfold Pipeline.processImage, Pipeline.main.
  fold result. rewrite Hbest. split; reflexivity.
Qed.

Lemma scalePrediction_score (p : Prediction) (params : TransformParams) :
  score (Index.scalePrediction p params) = score p.
Proof.
  unfold Index.scalePrediction.
  destruct (box p) as [[[x1 y1] x2] y2]. reflexivity.
Qed.

(** X9: when the network's answer has the expected shape and no anchor
    reaches an objectness of 0.5, a frame leaves the canvas exactly as it
    was: nothing is cleared and nothing is drawn, in the video loop as in
    the still-image pipeline. *)
Theorem low_confidence_frame_leaves_canvas :
  forall (predict : Tf.Tensor -> Tf.Tensor) (canvas : Canvas.t)
         (source : Element.t) (model : GraphModel),
    let raw :=
      predict (Index.processedImage
                 (Index.processImageWithLetterboxing source model)) in
    Tf.shape raw = [1; 56; 8400]%nat ->
    (forall a, (a < 8400)%nat -> Spec.channel raw 4 a < 0.5) ->
    Pipeline.processImage predict canvas source model = Returns canvas /\
    Pipeline.main predict canvas source model = Returns canvas.
Proof.
  intros predict canvas source model raw Hshape Hlow.
  destruct (selectors_return_first_best raw 17 8400 Hshape one_anchor_of_8400)
    as (i & Hbest & Hindex & _).
  destruct (pipeline_after_selection predict canvas source model _ Hindex)
    as [Hloop Hstill].
  rewrite Hloop, Hstill.
  assert (Hscore : Spec.channel raw 4 i < 0.5) by (apply Hlow, Hbest).
  split; f_equal.
  - apply renderPrediction_skipped. cbn [RenderPredictionProps.score].
    rewrite scalePrediction_score. exact Hscore.
  - apply variant_renderPrediction_skipped. cbn [RenderPredictionProps.score].
    rewrite scalePrediction_score. exact Hscore.
Qed.

Lemma low_confidence_frame_leaves_canvas_witness :
  Pipeline.processImage Scene.blindNetwork [Canvas.Fill]
                        Sample.landscape400x300 Sample.model640
  = Returns [Canvas.Fill] /\
  Pipeline.main Scene.blindNetwork [Canvas.Fill]
                Sample.landscape400x300 Sample.model640
  = Returns [Canvas.Fill].
Proof.
  apply (low_confidence_frame_leaves_canvas
           Scene.blindNetwork [Canvas.Fill] Sample.landscape400x300 Sample.model640).
  - reflexivity.
  - intros a _. reflexivity.
Defined.

(** X10: when the best anchor of a well-shaped answer has an objectness of
    at least 0.5, the frame sizes the canvas to the source, clears it,
    draws the source, and strokes a box whose corner is the unmapped near
    corner of the raw box and whose width and height are the raw width and
    height times [scale]; the keypoint markers follow. *)
Theorem confident_frame_draws_the_unmapped_box :
  forall (predict : Tf.Tensor -> Tf.Tensor) (canvas : Canvas.t)
         (source : Element.t) (model : GraphModel) (i : nat),
    let result := Index.processImageWithLetterboxing source model in
    let params := Index.transformParams result in
    let raw := predict (Index.processedImage result) in
    let width := inject_Z (Element.width source) in
    let height := inject_Z (Element.height source) in
    Tf.shape raw = [1; 56; 8400]%nat ->
    Spec.isBestAnchor raw 8400 i ->
    0.5 <= Spec.channel raw 4 i ->
    exists x y boxWidth boxHeight,
      Pipeline.processImage predict canvas source model
      = Returns
          (canvas
             ++ [Canvas.SetWidth width; Canvas.SetHeight height;
                 Canvas.ClearRect 0 0 width height;
                 Canvas.DrawImage source 0 0 width height;
                 Canvas.SetStrokeStyle "lime"; Canvas.SetLineWidth 2;
                 Canvas.StrokeRect x y boxWidth boxHeight;
                 Canvas.SetFillStyle "red"]
             ++ flat_map (Index.drawKeypoint [])
                  (map (fun '(kx, ky, c) =>
                          (Index.transformCoordinate kx (scale params) (xOffset params),
                           Index.transformCoordinate ky (scale params) (yOffset params),
                           c))
                       (Spec.keypointsAt raw 17 i))) /\
      x = Index.transformCoordinate
            (Spec.channel raw 0 i - Spec.channel raw 2 i / 2)
            (scale params) (xOffset params) /\
      y = Index.transformCoordinate
            (Spec.channel raw 1 i - Spec.channel raw 3 i / 2)
            (scale params) (yOffset params) /\
      boxWidth == Spec.channel raw 2 i * scale params /\
      boxHeight == Spec.channel raw 3 i * scale params.
Proof.
  intros predict canvas source model i result params raw width height
         Hshape Hbest Hpass.
  destruct (selectors_return_first_best raw 17 8400 Hshape one_anchor_of_8400)
    as (j & Hj & Hindex & _).
  assert (j = i) by (eapply isBestAnchor_unique; eassumption). subst j.
  destruct (pipeline_after_selection predict canvas source model _ Hindex)
    as [Hloop _].
  rewrite Hloop.
  rewrite renderPrediction_passed
    by (cbn [RenderPredictionProps.score]; rewrite scalePrediction_score;
        exact Hpass).
  unfold Index.scalePrediction.
  cbn [box score keypoints RenderPredictionProps.canvas RenderPredictionProps.source
       RenderPredictionProps.box RenderPredictionProps.keypoints
       RenderPredictionProps.width RenderPredictionProps.height].
  do 4 eexists. split; [reflexivity |].
  split; [reflexivity |]. split; [reflexivity |].
  unfold Index.transformCoordinate. fold result params raw.
  split; field.
Qed.

Lemma confident_frame_draws_the_unmapped_box_witness :
  exists x y boxWidth boxHeight marks,
    Pipeline.processImage Scene.confidentNetwork []
                          Sample.landscape400x300 Sample.model640
    = Returns
        ([Canvas.SetWidth 400; Canvas.SetHeight 300;
          Canvas.ClearRect 0 0 400 300;
          Canvas.DrawImage Sample.landscape400x300 0 0 400 300;
          Canvas.SetStrokeStyle "lime"; Canvas.SetLineWidth 2;
          Canvas.StrokeRect x y boxWidth boxHeight;
          Canvas.SetFillStyle "red"] ++ marks) /\
    x == 180 /\ y == 120 /\ boxWidth == 40 /\ boxHeight == 60.
Proof.
  destruct (confident_frame_draws_the_unmapped_box
              Scene.confidentNetwork [] Sample.landscape400x300 Sample.model640
              4242 eq_refl sample_best_anchor)
    as (x & y & boxWidth & boxHeight & Hrun & Hx & Hy & Hw & Hh);
    [discriminate |].
  exists x, y, boxWidth, boxHeight. eexists.
  split; [exact Hrun |].
  split; [rewrite Hx; reflexivity |]. split; [rewrite Hy; reflexivity |].
  split; [rewrite Hw; reflexivity | rewrite Hh; reflexivity].
Defined.

(** X11: an answer of the network that the selector cannot slice aborts the
    frame before anything is drawn: with fewer than five channels the
    pipeline throws the slice-overflow error, and with five or more
    channels but no anchor it throws the negative-begin error (the index of
    [-Infinity] in an empty score list is -1). *)
Theorem malformed_answer_aborts_the_frame :
  forall (predict : Tf.Tensor -> Tf.Tensor) (canvas : Canvas.t)
         (source : Element.t) (model : GraphModel) (channels anchors : nat),
    let raw :=
      predict (Index.processedImage
                 (Index.processImageWithLetterboxing source model)) in
    Tf.shape raw = [1; channels; anchors]%nat ->
    ((channels < 5)%nat ->
     Pipeline.processImage predict canvas source model = Throws SliceOverflow /\
     Pipeline.main predict canvas source model = Throws SliceOverflow) /\
    ((5 <= channels)%nat -> anchors = 0%nat ->
     Pipeline.processImage predict canvas source model = Throws NegativeBegin /\
     Pipeline.main predict canvas source model = Throws NegativeBegin).
Proof.
  intros predict canvas source model channels anchors raw Hshape.
  split.
  - intro Hfew.
    destruct (getBestPrediction_too_few_channels raw channels anchors Hshape Hfew)
      as [Hthrows _].
    unfold Pipeline.processImage, Pipeline.main. fold raw.
    rewrite Hthrows. split; reflexivity.
  - intros Hmany Hnone. subst anchors.
    replace channels with (5 + (channels - 5))%nat in Hshape by lia.
    destruct (getBestPrediction_no_anchor raw (channels - 5) Hshape)
      as [Hthrows _].
    unfold Pipeline.processImage, Pipeline.main. fold raw.
    rewrite Hthrows. split; reflexivity.
Qed.

Lemma malformed_answer_aborts_the_frame_witness :
  Pipeline.processImage Scene.brokenNetwork [] Sample.wide Sample.model640
  = Throws SliceOverflow /\
  Pipeline.main Scene.brokenNetwork [] Sample.wide Sample.model640
  = Throws SliceOverflow.
Proof.
  apply (malformed_answer_aborts_the_frame
           Scene.brokenNetwork [] Sample.wide Sample.model640 4 8400 eq_refl).
  lia.
Defined.

(** ** The renderer of the two demo files *)

Lemma demo_drawKeypoint_appends (ctx : Canvas.t) (kp : Keypoint) :
  PoseDemo.drawKeypoint ctx kp = ctx ++ PoseDemo.drawKeypoint [] kp.
Proof.
  destruct kp as [[x y] c]. unfold PoseDemo.drawKeypoint.
  destruct (Qltb 0.5 c); [reflexivity | now rewrite app_nil_r].
Qed.

Lemma demo_fold_drawKeypoint (kps : list Keypoint) :
  forall ctx : Canvas.t,
    fold_left PoseDemo.drawKeypoint kps ctx
    = ctx ++ flat_map (PoseDemo.drawKeypoint []) kps.
Proof.
  induction kps as [| kp kps IH]; intro ctx; cbn [fold_left flat_map].
  - now rewrite app_nil_r.
  - rewrite IH, demo_drawKeypoint_appends, <- app_assoc. reflexivity.
Qed.

Lemma demo_marks_are_filtered (kps : list Keypoint) :
  flat_map (PoseDemo.drawKeypoint []) kps = Marks.demo kps.
Proof.
  unfold Marks.demo.
  induction kps as [| [[x y] c] kps IH]; [reflexivity |].
  cbn [flat_map filter]. unfold PoseDemo.drawKeypoint at 1.
  destruct (Qltb 0.5 c); cbn [flat_map app]; now rewrite IH.
Qed.

Lemma demo_marks_length (kps : list Keypoint) :
  length (Marks.demo kps)
  = (4 * length (filter (fun '(_, _, c) => Qltb 0.5 c) kps))%nat.
Proof.
  unfold Marks.demo.
  induction (filter (fun '(_, _, c) => Qltb 0.5 c) kps)
    as [| [[x y] c] l IH]; [reflexivity |].
  cbn [flat_map length app]. rewrite IH. lia.
Qed.

(** X12: the renderer of the two demo files has no score gate and draws no
    box: it always clears the canvas and draws the source (in the letterbox
    demo only when a source is given), then marks exactly the keypoints
    whose confidence is above 0.5, in order, at the coordinates it is given.
    Called without a source it adds nothing but the marks. *)
Theorem renderPosePredictions_marks_confident_keypoints :
  forall (ctx : Canvas.t) (keypoints : list Keypoint) (width height : Q)
         (source : Element.t),
    PoseDemo.renderPosePredictions ctx keypoints width height source
    = ctx ++ [Canvas.ClearRect 0 0 width height;
              Canvas.DrawImage source 0 0 width height]
          ++ Marks.demo keypoints /\
    PoseDemo.renderPosePredictionsOptional ctx keypoints width height (Some source)
    = PoseDemo.renderPosePredictions ctx keypoints width height source /\
    PoseDemo.renderPosePredictionsOptional ctx keypoints width height None
    = ctx ++ Marks.demo keypoints /\
    length (Marks.demo keypoints)
    = (4 * length (filter (fun '(_, _, c) => Qltb 0.5 c) keypoints))%nat.
Proof.
  intros ctx keypoints width height source.
  split; [| split; [| split]].
  - unfold PoseDemo.renderPosePredictions.
    rewrite demo_fold_drawKeypoint, demo_marks_are_filtered, <- app_assoc.
    reflexivity.
  - reflexivity.
  - unfold PoseDemo.renderPosePredictionsOptional.
    rewrite demo_fold_drawKeypoint, demo_marks_are_filtered. reflexivity.
  - apply demo_marks_length.
Qed.

(** ** The live-video demo *)

Lemma clamp_bounds (v hi : Q) : 0 <= hi -> 0 <= Marks.clamp v hi /\ Marks.clamp v hi <= hi.
Proof.
  intro Hhi. unfold Marks.clamp. split.
  - apply Q.le_max_l.
  - apply Q.max_lub; [exact Hhi | apply Q.le_min_r].
Qed.

Lemma live_drawKeypoint_appends (props : LiveVideo.Props) (ctx : Canvas.t)
      (kp : Keypoint) :
  LiveVideo.drawKeypoint props ctx kp = ctx ++ LiveVideo.drawKeypoint props [] kp.
Proof.
  destruct kp as [[x y] c]. unfold LiveVideo.drawKeypoint.
  destruct (Qltb 0.5 c); [reflexivity | now rewrite app_nil_r].
Qed.

Lemma live_fold_drawKeypoint (props : LiveVideo.Props) (kps : list Keypoint) :
  forall ctx : Canvas.t,
    fold_left (LiveVideo.drawKeypoint props) kps ctx
    = ctx ++ flat_map (LiveVideo.drawKeypoint props []) kps.
Proof.
  induction kps as [| kp kps IH]; intro ctx; cbn [fold_left flat_map].
  - now rewrite app_nil_r.
  - rewrite IH, live_drawKeypoint_appends, <- app_assoc. reflexivity.
Qed.

Lemma live_marks_are_filtered (props : LiveVideo.Props) (kps : list Keypoint) :
  flat_map (LiveVideo.drawKeypoint props []) kps
  = Marks.live (LiveVideo.scale props) (LiveVideo.dx props) (LiveVideo.dy props)
              (LiveVideo.width props) (LiveVideo.height props) kps.
Proof.
  unfold Marks.live.
  induction kps as [| [[x y] c] kps IH]; [reflexivity |].
  cbn [flat_map filter]. unfold LiveVideo.drawKeypoint at 1.
  destruct (Qltb 0.5 c); cbn [flat_map app]; now rewrite IH.
Qed.

Lemma live_renderPosePredictions_trace (props : LiveVideo.Props) :
  LiveVideo.renderPosePredictions props
  = LiveVideo.ctx props
      ++ [Canvas.ClearRect 0 0 (LiveVideo.width props) (LiveVideo.height props);
          Canvas.DrawImage (LiveVideo.source props) 0 0
                           (LiveVideo.width props) (LiveVideo.height props)]
      ++ Marks.live (LiveVideo.scale props) (LiveVideo.dx props)
                   (LiveVideo.dy props) (LiveVideo.width props)
                   (LiveVideo.height props) (LiveVideo.keypoints props).
Proof.
  unfold LiveVideo.renderPosePredictions.
  rewrite live_fold_drawKeypoint, live_marks_are_filtered, <- app_assoc.
  reflexivity.
Qed.

Lemma live_marks_inside (scale dx dy width height : Q) (kps : list Keypoint)
      (x y radius startAngle endAngle : Q) :
  0 <= width -> 0 <= height ->
  In (Canvas.Arc x y radius startAngle endAngle)
     (Marks.live scale dx dy width height kps) ->
  (0 <= x /\ x <= width) /\ (0 <= y /\ y <= height).
Proof.
  intros Hw Hh. unfold Marks.live.
  induction (filter (fun '(_, _, c) => Qltb 0.5 c) kps) as [| [[kx ky] c] l IH].
  - intros [].
  - cbn [flat_map app In].
    intros [H | [H | [H | [H | H]]]]; try discriminate; [| exact (IH H)].
    injection H as <- <- _ _ _.
    split; apply clamp_bounds; assumption.
Qed.

(** X13: the live renderer clears the frame, draws the video and then adds
    only marks that lie on the frame: every arc it adds has its centre in
    [0, width] x [0, height], whatever the keypoints, the scale and the
    offsets, as soon as width and height are not negative. *)
Theorem live_marks_stay_on_the_frame :
  forall (props : LiveVideo.Props),
    0 <= LiveVideo.width props ->
    0 <= LiveVideo.height props ->
    exists marks,
      LiveVideo.renderPosePredictions props
      = LiveVideo.ctx props
          ++ [Canvas.ClearRect 0 0 (LiveVideo.width props) (LiveVideo.height props);
              Canvas.DrawImage (LiveVideo.source props) 0 0
                               (LiveVideo.width props) (LiveVideo.height props)]
          ++ marks /\
      forall x y radius startAngle endAngle,
        In (Canvas.Arc x y radius startAngle endAngle) marks ->
        (0 <= x /\ x <= LiveVideo.width props) /\
        (0 <= y /\ y <= LiveVideo.height props).
Proof.
  intros props Hw Hh. eexists. split.
  - apply live_renderPosePredictions_trace.
  - intros x y radius startAngle endAngle.
    apply live_marks_inside; assumption.
Qed.

Lemma live_marks_stay_on_the_frame_witness :
  exists marks,
    LiveVideo.renderPosePredictions Scene.liveProps
    = [Canvas.ClearRect 0 0 400 300;
       Canvas.DrawImage Sample.landscape400x300 0 0 400 300] ++ marks /\
    forall x y radius startAngle endAngle,
      In (Canvas.Arc x y radius startAngle endAngle) marks ->
      (0 <= x /\ x <= 400) /\ (0 <= y /\ y <= 300).
Proof.
  apply (live_marks_stay_on_the_frame Scene.liveProps); discriminate.
Defined.

(** The numbers [processFrame] reads off the frame tensor are those
    [processImageWithLetterboxing] reads off the element. *)
Lemma frameGeometry_letterbox (video : Element.t) (model : GraphModel)
      (channels : nat) :
  (0 <= Element.width video)%Z ->
  (0 <= Element.height video)%Z ->
  Tf.shape (Element.fromPixels video)
  = [Z.to_nat (Element.height video); Z.to_nat (Element.width video); channels] ->
  let p := Index.letterboxPadding (Element.width video) (Element.height video) in
  LiveVideo.frameGeometry (Tf.div (Element.fromPixels video) 255) model
  = {| LiveVideo.inputHeight := Element.height video;
       LiveVideo.inputWidth := Element.width video;
       LiveVideo.maxDim := Index.targetSquareSize p;
       LiveVideo.padWidth := (Index.targetSquareSize p - Element.width video)%Z;
       LiveVideo.padHeight := (Index.targetSquareSize p - Element.height video)%Z;
       LiveVideo.frameDx := Index.leftPadding p;
       LiveVideo.frameDy := Index.topPadding p;
       LiveVideo.frameScale :=
         inject_Z (Index.targetSquareSize p)
         / inject_Z (nth 2 (inputShape model) 0%Z) |}.
Proof.
  intros Hw Hh Hshape p.
  unfold LiveVideo.frameGeometry. cbn [Tf.div Tf.shape].
  rewrite Hshape. cbn [nth]. rewrite !Z2Nat.id by assumption.
  reflexivity.
Qed.

(** X14: on a frame whose tensor has the element's height and width, the
    live-video demo computes the letterbox of [src/index.ts]: same scale,
    same offsets, same frame size; and when the model input is square it
    hands the network the very tensor [processImageWithLetterboxing]
    builds. *)
Theorem live_frame_is_letterboxed_like_index :
  forall (video : Element.t) (model : GraphModel) (channels : nat),
    (0 <= Element.width video)%Z ->
    (0 <= Element.height video)%Z ->
    Tf.shape (Element.fromPixels video)
    = [Z.to_nat (Element.height video); Z.to_nat (Element.width video); channels] ->
    let g := LiveVideo.frameGeometry (Tf.div (Element.fromPixels video) 255) model in
    let result := Index.processImageWithLetterboxing video model in
    let params := Index.transformParams result in
    LiveVideo.frameScale g = scale params /\
    inject_Z (LiveVideo.frameDx g) = xOffset params /\
    inject_Z (LiveVideo.frameDy g) = yOffset params /\
    inject_Z (LiveVideo.inputWidth g) = originalWidth params /\
    inject_Z (LiveVideo.inputHeight g) = originalHeight params /\
    (nth 1 (inputShape model) 0%Z = nth 2 (inputShape model) 0%Z ->
     LiveVideo.networkInput video model = Index.processedImage result).
Proof.
  intros video model channels Hw Hh Hshape g result params.
  pose proof (frameGeometry_letterbox video model channels Hw Hh Hshape) as Hg.
  cbv zeta in Hg. fold g in Hg.
  split; [| split; [| split; [| split; [| split]]]];
    try (rewrite Hg; reflexivity).
  intro Hsquare.
  unfold LiveVideo.networkInput. fold g. rewrite Hg.
  cbn [LiveVideo.frameDy LiveVideo.frameDx LiveVideo.padHeight LiveVideo.padWidth].
  unfold result, Index.processImageWithLetterboxing. cbn [Index.processedImage].
  rewrite Hsquare. reflexivity.
Qed.

Lemma live_frame_is_letterboxed_like_index_witness :
  let g :=
    LiveVideo.frameGeometry (Tf.div (Element.fromPixels Scene.gradient) 255)
                            Scene.model8 in
  LiveVideo.frameScale g = inject_Z 6 / inject_Z 8 /\
  inject_Z (LiveVideo.frameDx g) = 0 /\
  inject_Z (LiveVideo.frameDy g) = 1 /\
  LiveVideo.networkInput Scene.gradient Scene.model8
  = Index.processedImage
      (Index.processImageWithLetterboxing Scene.gradient Scene.model8).
Proof.
  destruct (live_frame_is_letterboxed_like_index Scene.gradient Scene.model8 3)
    as (Hs & Hx & Hy & _ & _ & Hin); try reflexivity; try discriminate.
  split; [exact Hs |]. split; [exact Hx |]. split; [exact Hy |].
  apply Hin. reflexivity.
Defined.

(** X15: the live-video demo passes [modelWidth, modelHeight] where
    [resizeBilinear] expects [newHeight, newWidth]: its network input has
    [modelWidth] rows of [modelHeight] columns, whereas the one of
    [src/index.ts] has the [modelHeight] rows of [modelWidth] columns the
    model declares. *)
Theorem live_network_input_swaps_model_axes :
  forall (video : Element.t) (model : GraphModel)
         (height width channels : nat) (batch modelHeight modelWidth depth : Z),
    inputShape model = [batch; modelHeight; modelWidth; depth] ->
    Tf.shape (Element.fromPixels video) = [height; width; channels] ->
    Tf.shape (LiveVideo.networkInput video model)
    = [1%nat; Z.to_nat modelWidth; Z.to_nat modelHeight; channels] /\
    Tf.shape (Index.processedImage (Index.processImageWithLetterboxing video model))
    = [1%nat; Z.to_nat modelHeight; Z.to_nat modelWidth; channels].
Proof.
  intros video model height width channels batch modelHeight modelWidth depth
         Hmodel Hshape.
  split.
  - unfold LiveVideo.networkInput, Tf.expandDims0, Tf.resizeBilinear, Tf.pad.
    cbn [Tf.shape Tf.div]. rewrite Hmodel, Hshape.
    cbn [nth Tf.padShape]. rewrite Nat.add_0_r. reflexivity.
  - unfold Index.processImageWithLetterboxing, Index.letterboxedImageOf,
      Tf.expandDims0, Tf.resizeBilinear, Tf.pad.
    cbn [Index.processedImage Tf.shape Tf.div]. rewrite Hmodel, Hshape.
    cbn [nth Tf.padShape]. rewrite Nat.add_0_r. reflexivity.
Qed.

Lemma live_network_input_swaps_model_axes_witness :
  Tf.shape (LiveVideo.networkInput Sample.wide Sample.model640x320)
  = [1; 640; 320; 3]%nat /\
  Tf.shape (Index.processedImage
              (Index.processImageWithLetterboxing Sample.wide Sample.model640x320))
  = [1; 320; 640; 3]%nat.
Proof.
  exact (live_network_input_swaps_model_axes
           Sample.wide Sample.model640x320 360 640 3 1 320 640 3
           eq_refl eq_refl).
Defined.

(** X16: the converse round trip: for positive source dimensions and a
    square model input, unmapping a model-space coordinate with
    [transformCoordinate] and mapping the result forward through the
    letterbox (pad, then resize) gives the model-space coordinate back; so
    unmapping sends distinct model coordinates to distinct source
    coordinates. *)
Theorem unmap_then_forward_round_trip :
  forall (source : Element.t) (model : GraphModel)
         (batch modelHeight modelWidth channels : Z) (u v : Q),
    inputShape model = [batch; modelHeight; modelWidth; channels] ->
    (0 < Element.width source)%Z ->
    (0 < Element.height source)%Z ->
    (0 < modelWidth)%Z ->
    modelHeight = modelWidth ->
    let params :=
      Index.transformParams (Index.processImageWithLetterboxing source model) in
    Geometry.forwardX source model
      (Index.transformCoordinate u (scale params) (xOffset params)) == u /\
    Geometry.forwardY source model
      (Index.transformCoordinate u (scale params) (yOffset params)) == u /\
    (Index.transformCoordinate u (scale params) (xOffset params)
     == Index.transformCoordinate v (scale params) (xOffset params) -> u == v) /\
    (Index.transformCoordinate u (scale params) (yOffset params)
     == Index.transformCoordinate v (scale params) (yOffset params) -> u == v).
Proof.
  intros source model batch modelHeight modelWidth channels u v
         Hshape Hw Hh Hm Hsq params.
  subst modelHeight.
  assert (Ht : ~ inject_Z (Z.max (Element.width source) (Element.height source)) == 0).
  { apply inject_Z_nonzero. lia. }
  assert (Hmw : ~ inject_Z modelWidth == 0).
  { apply inject_Z_nonzero. lia. }
  assert (Hx : forall c,
             Geometry.forwardX source model
               (Index.transformCoordinate c (scale params) (xOffset params)) == c).
  { intro c.
    unfold params, Index.transformCoordinate, Geometry.forwardX,
      Geometry.resizeCoordinate, Geometry.padCoordinate,
      Index.processImageWithLetterboxing.
    cbn [Index.transformParams scale xOffset]. rewrite Hshape.
    cbn [nth Index.letterboxPadding Index.targetSquareSize Index.leftPadding].
    field. split; assumption. }
  assert (Hy : forall c,
             Geometry.forwardY source model
               (Index.transformCoordinate c (scale params) (yOffset params)) == c).
  { intro c.
    unfold params, Index.transformCoordinate, Geometry.forwardY,
      Geometry.resizeCoordinate, Geometry.padCoordinate,
      Index.processImageWithLetterboxing.
    cbn [Index.transformParams scale yOffset]. rewrite Hshape.
    cbn [nth Index.letterboxPadding Index.targetSquareSize Index.topPadding].
    field. split; assumption. }
  split; [apply Hx |]. split; [apply Hy |]. split.
  - intro Heq. rewrite <- (Hx u), <- (Hx v).
    unfold Geometry.forwardX, Geometry.resizeCoordinate, Geometry.padCoordinate.
    rewrite Heq. reflexivity.
  - intro Heq. rewrite <- (Hy u), <- (Hy v).
    unfold Geometry.forwardY, Geometry.resizeCoordinate, Geometry.padCoordinate.
    rewrite Heq. reflexivity.
Qed.

Lemma unmap_then_forward_round_trip_witness :
  let params :=
    Index.transformParams
      (Index.processImageWithLetterboxing Sample.oddDifference Sample.model640) in
  Geometry.forwardX Sample.oddDifference Sample.model640
    (Index.transformCoordinate 200 (scale params) (xOffset params)) == 200 /\
  Geometry.forwardY Sample.oddDifference Sample.model640
    (Index.transformCoordinate 200 (scale params) (yOffset params)) == 200.
Proof.
  destruct (unmap_then_forward_round_trip
              Sample.oddDifference Sample.model640 1 640 640 3 200 0 eq_refl)
    as (Hx & Hy & _); try reflexivity.
  split; [exact Hx | exact Hy].
Defined.

(** X17: a live frame has no score gate: whenever the answer of the network
    has the expected shape, the frame is cleared, the video drawn, and the
    keypoints of the first best anchor with confidence above 0.5 are marked
    at their unmapped positions clamped to the frame, however low the
    objectness of that anchor is. *)
Theorem live_frame_always_draws :
  forall (predict : Tf.Tensor -> Tf.Tensor) (canvas : Canvas.t)
         (video : Element.t) (model : GraphModel) (channels i : nat),
    (0 <= Element.width video)%Z ->
    (0 <= Element.height video)%Z ->
    Tf.shape (Element.fromPixels video)
    = [Z.to_nat (Element.height video); Z.to_nat (Element.width video); channels] ->
    let raw := predict (LiveVideo.networkInput video model) in
    let params :=
      Index.transformParams (Index.processImageWithLetterboxing video model) in
    let width := inject_Z (Element.width video) in
    let height := inject_Z (Element.height video) in
    Tf.shape raw = [1; 56; 8400]%nat ->
    Spec.isBestAnchor raw 8400 i ->
    LiveVideo.processFrame predict canvas video model
    = Returns
        (canvas
           ++ [Canvas.ClearRect 0 0 width height;
               Canvas.DrawImage video 0 0 width height]
           ++ Marks.live (scale params) (xOffset params) (yOffset params)
                         width height (Spec.keypointsAt raw 17 i)).
Proof.
  intros predict canvas video model channels i Hw Hh Hshape raw params
         width height Hraw Hbest.
  destruct (selectors_return_first_best raw 17 8400 Hraw one_anchor_of_8400)
    as (j & Hj & _ & Hselect).
  assert (j = i) by (eapply isBestAnchor_unique; eassumption). subst j.
  unfold LiveVideo.processFrame. fold raw. rewrite Hselect.
  cbn [bind OutputProcessing.keypoints].
  rewrite live_renderPosePredictions_trace.
  cbn [LiveVideo.ctx LiveVideo.keypoints LiveVideo.width LiveVideo.height
       LiveVideo.source LiveVideo.scale LiveVideo.dx LiveVideo.dy].
  rewrite (frameGeometry_letterbox video model channels Hw Hh Hshape).
  reflexivity.
Qed.

Lemma live_frame_always_draws_witness :
  LiveVideo.processFrame Scene.blindNetwork [] Sample.landscape400x300
                         Sample.model640
  = Returns [Canvas.ClearRect 0 0 400 300;
             Canvas.DrawImage Sample.landscape400x300 0 0 400 300].
Proof.
  rewrite (live_frame_always_draws
             Scene.blindNetwork [] Sample.landscape400x300 Sample.model640 3 0);
    try reflexivity; try discriminate.
  split; [apply Nat.ltb_lt; vm_compute; reflexivity |].
  split; [intros a _; discriminate | intros a Ha; inversion Ha].
Defined.
